(** * Embedding a square lattice with an on-disk cache

    A shallow embedding of [tutorial_code/embed_square_lattice.py]:
    the construction of the spin model of an [L] x [L] cylinder, the name
    of the cache file, and the load / search / save policy of
    [embed_square_lattice].

    Python integers are [Z], [range(L)] is [seqZ 0 L], dictionaries are
    [gmap]s, and an exception is a value of [exn] carried on the left of
    a sum. *)

From stdpp Require Import gmap strings list list_numbers sorting pretty.
From Stdlib Require Import ZArith Lia Ascii.

Local Open Scope Z_scope.

(** ** Exceptions *)

(** The exceptions the function can meet.  [OtherError] stands for
    whatever an external collaborator raises. *)
Inductive exn : Type :=
  | ValueError
  | FileNotFoundError
  | UnboundLocalError
  | OtherError (name : string).

Definition result (A : Type) : Type := (exn + A)%type.

(** ** The binary quadratic model of [dimod] *)

Module Dimod.

(** An interaction is undirected: both orders of the end points name
    the same entry. *)
Definition edge (u v : Z) : Z * Z := if u <=? v then (u, v) else (v, u).

Record BinaryQuadraticModel : Type := mkBQM {
  variables : list Z;            (* labels, in insertion order *)
  linear : gmap Z Z;
  quadratic : gmap (Z * Z) Z
}.

(** [dimod.BinaryQuadraticModel(vartype='SPIN')] *)
Definition empty : BinaryQuadraticModel := mkBQM [] ∅ ∅.

(** [bqm.add_variable(v)]: a new label is appended with bias 0, a known
    one keeps its place (and its bias, to which 0 is added). *)
Definition add_variable (b : BinaryQuadraticModel) (v : Z) : BinaryQuadraticModel :=
  mkBQM (if bool_decide (v ∈ variables b) then variables b else variables b ++ [v])
        (<[v := default 0 (linear b !! v) + 0]> (linear b))
        (quadratic b).

(** [bqm.set_quadratic(u, v, bias)]: a variable has no interaction with
    itself ([ValueError]); otherwise the bias of the interaction is
    overwritten.  End points are added when missing; in this program
    they are always present already. *)
Definition set_quadratic (b : BinaryQuadraticModel) (u v bias : Z)
  : result BinaryQuadraticModel :=
  if bool_decide (u = v) then inl ValueError
  else
    let b1 := if bool_decide (u ∈ variables b) then b else add_variable b u in
    let b2 := if bool_decide (v ∈ variables b1) then b1 else add_variable b1 v in
    inr (mkBQM (variables b2) (linear b2) (<[edge u v := bias]> (quadratic b2))).

(** [bqm.get_quadratic(u, v)] *)
Definition get_quadratic (b : BinaryQuadraticModel) (u v : Z) : option Z :=
  quadratic b !! edge u v.

End Dimod.

Import Dimod.

(** ** Loops *)

(** A [for] loop whose body may raise: the first exception ends it. *)
Fixpoint for_each {A S : Type} (xs : list A) (body : S → A → result S) (s : S)
  : result S :=
  match xs with
  | [] => inr s
  | x :: xs' =>
      match body s x with
      | inl e => inl e
      | inr s' => for_each xs' body s'
      end
  end.

(** ** The logical graph *)

(** Lines 39-41: one variable per site [(x, y)], labelled [x * L + y]. *)
Definition add_sites (L : Z) (b : BinaryQuadraticModel) : BinaryQuadraticModel :=
  foldl (λ b x, foldl (λ b y, add_variable b (x * L + y)) b (seqZ 0 L)) b (seqZ 0 L).

(** Lines 45-50: the body of the second pair of loops at site [(x, y)]. *)
Definition couple_site (L x : Z) (b : BinaryQuadraticModel) (y : Z)
  : result BinaryQuadraticModel :=
  match
    (if bool_decide ((x + y) `mod` 2 ≠ 0)
     then set_quadratic b (x * L + y) (x * L + ((y + 1) `mod` L)) 1
     else set_quadratic b (x * L + y) (x * L + ((y + 1) `mod` L)) (-1))
  with
  | inl e => inl e
  | inr b1 =>
      if bool_decide (x < L - 1)
      then set_quadratic b1 (x * L + y) ((x + 1) * L + y) 1
      else inr b1
  end.

(** Lines 43-50. *)
Definition add_couplings (L : Z) (b : BinaryQuadraticModel)
  : result BinaryQuadraticModel :=
  for_each (seqZ 0 L) (λ b x, for_each (seqZ 0 L) (couple_site L x) b) b.

(** Lines 37-50: the model [bqm] of the function. *)
Definition build_bqm (L : Z) : result BinaryQuadraticModel :=
  add_couplings L (add_sites L empty).

(** A [networkx] graph: nodes in insertion order and weighted edges. *)
Record Graph : Type := mkGraph {
  nodes : list Z;
  edges : gmap (Z * Z) Z
}.

(** [dimod.to_networkx_graph(bqm)] *)
Definition to_networkx_graph (b : BinaryQuadraticModel) : Graph :=
  mkGraph (variables b) (quadratic b).

(** [sorted(...)] on integers. *)
Definition sorted (l : list Z) : list Z := merge_sort Z.le l.

(** ** The name of the cache file *)

(** The format [{L:02d}]: the decimal digits of [L], with a minus sign
    for a negative number, filled on the left with a zero up to two
    characters. *)
Definition format_02d (L : Z) : string :=
  let s := pretty L in
  if bool_decide (String.length s < 2)%nat then "0" +:+ s else s.

(** Line 56. *)
Definition cache_filename (solver_name : string) (L : Z) : string :=
  "cached_embeddings/" +:+ solver_name +:+ "__L" +:+ format_02d L
    +:+ "_square_embeddings_cached.txt".
Global Arguments cache_filename : simpl never.

(** ** The sampler *)

(** What the function asks of [sampler]: [properties['chip_id']] and
    [to_networkx_graph()]. *)
Record Sampler : Type := mkSampler {
  chip_id : string;
  sampler_to_networkx_graph : Graph
}.

(** ** Effects *)

(** What a call does to the outside, in order. *)
Inductive event : Type :=
  | EvLoadtxt (path : string)
  | EvLowerBound (S T : Graph)
  | EvSearch (S T : Graph) (timeout raster_breadth : Z)
  | EvToNdarray (node_order : list Z)
  | EvMakedirs (dir : string)
  | EvSavetxt (path : string).

(** [FileExistsError] of [os]. *)
Definition FileExistsError : exn := OtherError "FileExistsError".

Section Collaborators.

(** [numpy] arrays, and the reading and printing of one as text
    ([np.loadtxt(..., dtype=int)] fails with [ValueError] on text that
    is no integer matrix, [np.savetxt(..., fmt='%d')]). *)
Context {ndarray : Type}.
Variable np_parse : string → option ndarray.
Variable np_format : ndarray → string.

(** The embedding search of [minorminer] depends on more than its
    arguments (clock, random choices): [hidden] is that state. *)
Context {hidden : Type}.
Variable raster_breadth_subgraph_lower_bound :
  Graph → Graph → hidden → result Z * hidden.
Variable raster_embedding_search :
  Graph → Graph → Z → Z → hidden → result (list (gmap Z Z)) * hidden.
Variable embeddings_to_ndarray : list (gmap Z Z) → list Z → result ndarray.

(** The file system under the working directory, and the state of the
    collaborators. *)
Record world : Type := mkWorld {
  files : gmap string string;
  dirs : gset string;
  ext : hidden
}.

Record outcome (A : Type) : Type := mkOutcome {
  res : result A;
  final : world;
  trace : list event
}.
Global Arguments mkOutcome {A} _ _ _.
Global Arguments res {A} _.
Global Arguments final {A} _.
Global Arguments trace {A} _.

(** The operating system decides whether a directory can be made and a
    file written (what exists, permissions, room on the disk).
    [makedirs_error w dir] is the exception [os.makedirs(dir,
    exist_ok=True)] raises in the world [w], [None] when it returns.
    [savetxt_error w path text] is the exception [np.savetxt] raises
    when it is to write [text] to [path], with what the broken write
    left in the file ([None] when the file was not opened), and [None]
    when the write goes through. *)
Variable makedirs_error : world → string → option exn.
Variable savetxt_error :
  world → string → string → option (exn * option string).

(** Computations that read and change the world, log what they do and
    may raise. *)
Definition M (A : Type) : Type := world → outcome A.

Definition ret {A} (a : A) : M A := λ w, mkOutcome (inr a) w [].
Definition raise {A} (e : exn) : M A := λ w, mkOutcome (inl e) w [].
Definition bind {A B} (k : A → M B) (m : M A) : M B := λ w,
  match m w with
  | mkOutcome (inl e) w1 t1 => mkOutcome (inl e) w1 t1
  | mkOutcome (inr a) w1 t1 =>
      match k a w1 with
      | mkOutcome r w2 t2 => mkOutcome r w2 (t1 ++ t2)
      end
  end.
Definition lift {A} (r : result A) : M A :=
  match r with inl e => raise e | inr a => ret a end.

#[local] Instance M_ret : MRet M := @ret.
#[local] Instance M_bind : MBind M := @bind.

(** [try: ... except (ValueError, FileNotFoundError) as e: ...]: the
    two exceptions are handed to the handler, any other goes on. *)
Definition try_except {A} (m : M A) : M (exn + A) := λ w,
  match m w with
  | mkOutcome (inl ValueError) w1 t1 =>
      mkOutcome (inr (inl ValueError)) w1 t1
  | mkOutcome (inl FileNotFoundError) w1 t1 =>
      mkOutcome (inr (inl FileNotFoundError)) w1 t1
  | mkOutcome (inl e) w1 t1 => mkOutcome (inl e) w1 t1
  | mkOutcome (inr a) w1 t1 => mkOutcome (inr (inr a)) w1 t1
  end.

(** [np.loadtxt(path, dtype=int)] *)
Definition np_loadtxt (path : string) : M ndarray := λ w,
  match files w !! path with
  | None => mkOutcome (inl FileNotFoundError) w [EvLoadtxt path]
  | Some text =>
      match np_parse text with
      | None => mkOutcome (inl ValueError) w [EvLoadtxt path]
      | Some a => mkOutcome (inr a) w [EvLoadtxt path]
      end
  end.

(** [np.savetxt(path, a, fmt='%d')]: the file then holds the text of
    the array; a write that raises leaves the file as it was, or with
    what was written of it, and nothing cleans up. *)
Definition np_savetxt (path : string) (a : ndarray) : M unit := λ w,
  match savetxt_error w path (np_format a) with
  | None =>
      mkOutcome (inr ())
        (mkWorld (<[path := np_format a]> (files w)) (dirs w) (ext w))
        [EvSavetxt path]
  | Some (e, None) => mkOutcome (inl e) w [EvSavetxt path]
  | Some (e, Some part) =>
      mkOutcome (inl e) (mkWorld (<[path := part]> (files w)) (dirs w) (ext w))
        [EvSavetxt path]
  end.

(** [os.makedirs(dir, exist_ok=True)], for a directory of one component
    as the function names it: the directory exists afterwards; a call
    that raises has made nothing. *)
Definition os_makedirs (dir : string) : M unit := λ w,
  match makedirs_error w dir with
  | Some e => mkOutcome (inl e) w [EvMakedirs dir]
  | None =>
      mkOutcome (inr ()) (mkWorld (files w) ({[dir]} ∪ dirs w) (ext w))
        [EvMakedirs dir]
  end.

Definition call_lower_bound (S T : Graph) : M Z := λ w,
  let '(r, h) := raster_breadth_subgraph_lower_bound S T (ext w) in
  mkOutcome r (mkWorld (files w) (dirs w) h) [EvLowerBound S T].

Definition call_search (S T : Graph) (timeout raster_breadth : Z)
  : M (list (gmap Z Z)) := λ w,
  let '(r, h) := raster_embedding_search S T timeout raster_breadth (ext w) in
  mkOutcome r (mkWorld (files w) (dirs w) h)
    [EvSearch S T timeout raster_breadth].

Definition call_to_ndarray (embs : list (gmap Z Z)) (node_order : list Z)
  : M ndarray := λ w,
  mkOutcome (embeddings_to_ndarray embs node_order) w [EvToNdarray node_order].

(** The cache file cannot be loaded: there is none, or its text is no
    integer matrix. *)
Definition cache_unreadable (w : world) (path : string) : Prop :=
  files w !! path = None
  ∨ ∃ text, files w !! path = Some text ∧ np_parse text = None.

(** Reading a local variable: one that was never assigned raises
    [UnboundLocalError]. *)
Definition read_local {A} (x : option A) : M A :=
  match x with Some a => ret a | None => raise UnboundLocalError end.

(** How a block ends: at a [return], or by falling off its end with the
    local [embeddings] bound or not. *)
Inductive flow (R : Type) : Type :=
  | Return (r : R)
  | Next (embeddings : option ndarray).
Global Arguments Return {R} _.
Global Arguments Next {R} _.

(** ** [embed_square_lattice] *)

(** The function, line by line.  [print] and the clock readings around
    the search change neither the result nor a file and are left out.
    [kwargs] is taken and never read. *)
Definition embed_square_lattice (sampler : Sampler) (L : Z)
    (try_to_load : bool) (kwargs : list (string * Z))
  : M (ndarray * BinaryQuadraticModel) :=
  bqm ← lift (build_bqm L);
  let G := to_networkx_graph bqm in
  let A := sampler_to_networkx_graph sampler in
  let solver_name := chip_id sampler in
  let cache_filename := cache_filename solver_name L in
  c ← (if try_to_load then
         r ← try_except (np_loadtxt cache_filename);
         match r with
         | inr embeddings => ret (Return (embeddings, bqm))
         | inl e =>
             lower_bound ← call_lower_bound G A;
             embs ← call_search G A 10 6;
             embeddings ← call_to_ndarray embs (sorted (nodes G));
             ret (Next (Some embeddings))
         end
       else ret (Next None));
  match c with
  | Return r => ret r
  | Next embeddings =>
      _ ← os_makedirs "cached_embeddings/";
      a ← read_local embeddings;
      _ ← np_savetxt cache_filename a;
      ret (a, bqm)
  end.

End Collaborators.

(** ** Calls and the entry point *)

(** The values a caller can pass in the places of [sampler], [L] and
    [try_to_load]; keyword arguments are taken with integer values, as
    [main] passes them. *)
Inductive pyvalue : Type :=
  | PyInt (z : Z)
  | PyBool (b : bool)
  | PySampler (s : Sampler).

(** [TypeError] and [AttributeError] of the interpreter. *)
Definition TypeError : exn := OtherError "TypeError".
Definition AttributeError : exn := OtherError "AttributeError".

Definition lookup_keyword (name : string) (keywords : list (string * Z))
  : option Z :=
  (λ r : nat * (string * Z), r.2.2) <$> list_find (λ p, p.1 = name) keywords.

(** One parameter of the signature: it takes the positional argument at
    its place or the keyword of its name, not both; without either it
    takes its default, and a parameter without default is missing. *)
Definition bind_parameter (name : string) (positional : option pyvalue)
    (keywords : list (string * Z)) (default : option pyvalue)
  : result pyvalue :=
  match positional, lookup_keyword name keywords with
  | Some _, Some _ => inl TypeError
  | Some v, None => inr v
  | None, Some z => inr (PyInt z)
  | None, None =>
      match default with
      | Some d => inr d
      | None => inl TypeError
      end
  end.

(** Line 26, the signature [sampler, L, try_to_load=True] followed by
    the keyword collector [kwargs]: at most three positional arguments;
    keywords that name no parameter are collected in [kwargs]. *)
Definition bind_arguments (args : list pyvalue) (keywords : list (string * Z))
  : result (pyvalue * pyvalue * pyvalue * list (string * Z)) :=
  if bool_decide (3 < length args)%nat then inl TypeError
  else
    match bind_parameter "sampler" (args !! 0%nat) keywords None with
    | inl e => inl e
    | inr sampler =>
        match bind_parameter "L" (args !! 1%nat) keywords None with
        | inl e => inl e
        | inr L =>
            match bind_parameter "try_to_load" (args !! 2%nat) keywords
                    (Some (PyBool true)) with
            | inl e => inl e
            | inr try_to_load =>
                inr (sampler, L, try_to_load,
                     filter (λ p, p.1 ∉ ["sampler"; "L"; "try_to_load"])
                       keywords)
            end
        end
    end.

(** An integer, or a boolean taken as 0 or 1. *)
Definition as_int (v : pyvalue) : option Z :=
  match v with
  | PyInt z => Some z
  | PyBool b => Some (if b then 1 else 0)
  | PySampler _ => None
  end.

(** The truth value [if try_to_load:] tests. *)
Definition truthy (v : pyvalue) : bool :=
  match v with
  | PyInt z => bool_decide (z ≠ 0)
  | PyBool b => b
  | PySampler _ => true
  end.

Section Entry.

Context {ndarray hidden : Type}.
Variable np_parse : string → option ndarray.
Variable np_format : ndarray → string.
Variable raster_breadth_subgraph_lower_bound :
  Graph → Graph → hidden → result Z * hidden.
Variable raster_embedding_search :
  Graph → Graph → Z → Z → hidden → result (list (gmap Z Z)) * hidden.
Variable embeddings_to_ndarray : list (gmap Z Z) → list Z → result ndarray.
Variable makedirs_error : @world hidden → string → option exn.
Variable savetxt_error :
  @world hidden → string → string → option (exn * option string).

(** A call of [embed_square_lattice] with positional arguments [args]
    and keyword arguments [keywords]: the arguments are bound; [range(L)] needs an integer (line 39); an object that is no
    sampler has no [to_networkx_graph] (line 53, after the model is
    built). *)
Definition call_embed_square_lattice (args : list pyvalue)
    (keywords : list (string * Z))
  : M (hidden := hidden) (ndarray * BinaryQuadraticModel) :=
  match bind_arguments args keywords with
  | inl e => raise e
  | inr (sampler, L, try_to_load, kwargs) =>
      match as_int L with
      | None => raise TypeError
      | Some z =>
          match sampler with
          | PySampler s =>
              embed_square_lattice np_parse np_format
                raster_breadth_subgraph_lower_bound raster_embedding_search
                embeddings_to_ndarray makedirs_error savetxt_error
                s z (truthy try_to_load) kwargs
          | _ => bind (λ _, raise AttributeError) (lift (build_bqm z))
          end
      end
  end.

(** Lines 84-87, [main]: [L = 12], then
    [embed_square_lattice(L, raster_breadth=5, max_num_emb=1,
    timeout=100)], whose pair is unpacked and dropped. *)
Definition main : M (hidden := hidden) unit :=
  let L := 12 in
  bind (λ '(embeddings, bqm), ret ())
    (call_embed_square_lattice [PyInt L]
       [("raster_breadth", 5); ("max_num_emb", 1); ("timeout", 100)]).

End Entry.

(** ** The couplings as a list of writes *)

(** The calls of [set_quadratic] that the body of the second pair of
    loops makes at site [(x, y)]: end points and bias. *)
Definition site_ops (L x y : Z) : list (Z * Z * Z) :=
  (x * L + y, x * L + ((y + 1) `mod` L),
   if bool_decide ((x + y) `mod` 2 ≠ 0) then 1 else -1)
  :: (if bool_decide (x < L - 1) then [(x * L + y, (x + 1) * L + y, 1)] else []).

(** All of them, in the order of the loops. *)
Definition all_ops (L : Z) : list (Z * Z * Z) :=
  x ← seqZ 0 L; y ← seqZ 0 L; site_ops L x y.

Definition apply_op (b : BinaryQuadraticModel) (op : Z * Z * Z)
  : result BinaryQuadraticModel :=
  set_quadratic b op.1.1 op.1.2 op.2.

Definition write_op (q : gmap (Z * Z) Z) (op : Z * Z * Z) : gmap (Z * Z) Z :=
  <[edge op.1.1 op.1.2 := op.2]> q.

(** The bias of the interaction that site [(x, y)] writes around the
    cylinder follows the parity of [x + y]: [-1] when even, [+1] when
    odd. *)
Definition cyclic_weights_by_parity (L : Z) : Prop :=
  ∀ bqm x y,
    build_bqm L = inr bqm → 0 ≤ x < L → 0 ≤ y < L →
    get_quadratic bqm (x * L + y) (x * L + ((y + 1) `mod` L))
    = Some (if Z.even (x + y) then -1 else 1).

(** ** A small instance *)

(** Collaborators small enough to run: a 2 x 2 lattice on a chip with
    four qubits, a search that finds one embedding and counts its calls,
    a one-entry text codec, and a file system that can refuse. *)
Module Demo.

Definition np_parse (text : string) : option (list (list Z)) :=
  if bool_decide (text = "7 8 9 10") then Some [[7; 8; 9; 10]] else None.

Definition np_format (a : list (list Z)) : string :=
  if bool_decide (a = [[7; 8; 9; 10]]) then "7 8 9 10" else "?".

Definition lower_bound (S T : Graph) (calls : nat) : result Z * nat :=
  (inr 1, calls).

Definition search (S T : Graph) (timeout raster_breadth : Z) (calls : nat)
  : result (list (gmap Z Z)) * nat :=
  (inr [list_to_map [(0, 7); (1, 8); (2, 9); (3, 10)]], Datatypes.S calls).

Definition search_fails (S T : Graph) (timeout raster_breadth : Z)
    (calls : nat) : result (list (gmap Z Z)) * nat :=
  (inl (OtherError "no embedding found"), Datatypes.S calls).

Definition to_ndarray (embs : list (gmap Z Z)) (node_order : list Z)
  : result (list (list Z)) :=
  inr ((λ emb : gmap Z Z, (λ u, default 0 (emb !! u)) <$> node_order) <$> embs).

Definition emb : gmap Z Z := list_to_map [(0, 7); (1, 8); (2, 9); (3, 10)].
Definition table : list (list Z) := [[7; 8; 9; 10]].

Definition sampler : Sampler :=
  mkSampler "Advantage_system4.1"
    (mkGraph [7; 8; 9; 10]
       (list_to_map [((7, 8), 1); ((8, 10), 1); ((9, 10), 1); ((7, 9), 1)])).

Definition path : string := cache_filename "Advantage_system4.1" 2.

(** A chip whose name puts the cache file in a directory that nobody
    makes. *)
Definition nested_sampler : Sampler :=
  mkSampler "a/b" (sampler_to_networkx_graph sampler).

Definition bqm : BinaryQuadraticModel :=
  match build_bqm 2 with inr b => b | inl _ => empty end.

(** No cache yet; a cache with a table; a cache with other text. *)
Definition fresh : world := mkWorld ∅ ∅ 0%nat.
Definition cached : world :=
  mkWorld {[path := "7 8 9 10"]} {["cached_embeddings/"]} 0%nat.
Definition corrupt : world :=
  mkWorld {[path := "seven eight"]} {["cached_embeddings/"]} 0%nat.

(** The file system of the instance.  Directories are named with their
    closing ["/"], as the function names [cached_embeddings/]. *)
Definition has_slash (s : string) : bool :=
  bool_decide ("/"%char ∈ String.list_ascii_of_string s).

(** The directory of a path: what comes up to and including its last
    ["/"], empty for a path with none. *)
Fixpoint dirname (path : string) : string :=
  match path with
  | "" => ""
  | String c rest =>
      if bool_decide (c = "/"%char) || has_slash rest
      then String c (dirname rest)
      else ""
  end.

(** A directory name without its closing ["/"]. *)
Fixpoint strip_slash (dir : string) : string :=
  match dir with
  | "" => ""
  | String c rest =>
      if bool_decide (c = "/"%char ∧ rest = "") then ""
      else String c (strip_slash rest)
  end.

(** Where a file can be opened for writing: in the working directory
    or in a directory that exists. *)
Definition writable_in (ds : gset string) (path : string) : Prop :=
  dirname path = "" ∨ dirname path ∈ ds.

(** Where a directory cannot be made: a regular file has its name. *)
Definition makedirs_blocked (fs : gmap string string) (dir : string) : Prop :=
  is_Some (fs !! strip_slash dir).

(** A regular file has the name of the cache directory. *)
Definition blocked : world :=
  mkWorld {["cached_embeddings" := "not a directory"]} ∅ 0%nat.

(** It refuses in two ways: a directory is not made where a regular
    file has its name ([FileExistsError]), and a file is not opened in a
    directory that does not exist ([FileNotFoundError]). *)
Definition makedirs_error (w : @world nat) (dir : string) : option exn :=
  if bool_decide (makedirs_blocked (files w) dir)
  then Some FileExistsError else None.

Definition savetxt_error (w : @world nat) (path text : string)
  : option (exn * option string) :=
  if bool_decide (writable_in (dirs w) path)
  then None else Some (FileNotFoundError, None).

Definition embed :=
  embed_square_lattice np_parse np_format lower_bound search to_ndarray
    makedirs_error savetxt_error.
Definition embed_no_embedding :=
  embed_square_lattice np_parse np_format lower_bound search_fails to_ndarray
    makedirs_error savetxt_error.

End Demo.

(** * Properties *)

(** ** Loops *)

Lemma for_each_app {A S} (xs ys : list A) (body : S → A → result S) s :
  for_each (xs ++ ys) body s =
  match for_each xs body s with
  | inl e => inl e
  | inr s' => for_each ys body s'
  end.
Proof.
  induction xs as [|x xs IH] in s |-*; simpl; [done|].
  destruct (body s x); [done|]. apply IH.
Qed.

Lemma for_each_bind {A B S} (xs : list A) (g : A → list B)
    (body : S → B → result S) s :
  for_each xs (λ s x, for_each (g x) body s) s = for_each (xs ≫= g) body s.
Proof.
  induction xs as [|x xs IH] in s |-*; [done|].
  rewrite bind_cons, for_each_app. simpl.
  destruct (for_each (g x) body s); [done|]. apply IH.
Qed.

Lemma foldl_bind {A B S} (xs : list A) (g : A → list B) (f : S → B → S) s :
  foldl (λ s x, foldl f s (g x)) s xs = foldl f s (xs ≫= g).
Proof.
  induction xs as [|x xs IH] in s |-*; [done|].
  rewrite bind_cons, foldl_app. simpl. apply IH.
Qed.

(** ** Sites *)

(** The labels [x * L + y] in loop order are [0, 1, ..., L * L - 1]. *)
Lemma site_labels_rows (L : Z) (k : nat) :
  0 ≤ L →
  (seqZ 0 (Z.of_nat k) ≫= λ x, (λ y, x * L + y) <$> seqZ 0 L)
  = seqZ 0 (Z.of_nat k * L).
Proof.
  intros HL. induction k as [|k IH].
  - by rewrite Z.mul_0_l.
  - rewrite seqZ_S, bind_app, IH. simpl. rewrite app_nil_r.
    replace (Z.of_nat (S k) * L) with (Z.of_nat k * L + L) by lia.
    rewrite seqZ_app by lia. f_equal.
    trans (Z.add (Z.of_nat k * L) <$> seqZ 0 L).
    + apply list_fmap_ext. intros _ y _. lia.
    + rewrite fmap_add_seqZ. f_equal. lia.
Qed.

Lemma site_labels (L : Z) :
  0 ≤ L → (seqZ 0 L ≫= λ x, (λ y, x * L + y) <$> seqZ 0 L) = seqZ 0 (L * L).
Proof.
  intros HL. pose proof (site_labels_rows L (Z.to_nat L) HL) as H.
  by rewrite Z2Nat.id in H.
Qed.

Lemma add_variable_fresh b v :
  v ∉ variables b →
  variables (add_variable b v) = variables b ++ [v]
  ∧ quadratic (add_variable b v) = quadratic b.
Proof. intros Hv. unfold add_variable. simpl. by rewrite bool_decide_false. Qed.

Lemma foldl_add_variable_seqZ (k : nat) :
  variables (foldl add_variable empty (seqZ 0 (Z.of_nat k))) = seqZ 0 (Z.of_nat k)
  ∧ quadratic (foldl add_variable empty (seqZ 0 (Z.of_nat k))) = ∅.
Proof.
  induction k as [|k [IHv IHq]]; [done|].
  rewrite seqZ_S, foldl_app. cbn [foldl].
  destruct (add_variable_fresh
              (foldl add_variable empty (seqZ 0 (Z.of_nat k))) (0 + Z.of_nat k))
    as [Hv Hq].
  { rewrite IHv, elem_of_seqZ. lia. }
  rewrite Hv, Hq, IHv, IHq. done.
Qed.

Lemma add_sites_flat L b :
  add_sites L b
  = foldl add_variable b (seqZ 0 L ≫= λ x, (λ y, x * L + y) <$> seqZ 0 L).
Proof.
  unfold add_sites. generalize (seqZ 0 L) at 2 4. intros xs.
  induction xs as [|x xs IH] in b |-*; [done|].
  rewrite bind_cons, foldl_app, foldl_fmap. simpl. apply IH.
Qed.

Lemma add_sites_spec L :
  0 ≤ L →
  variables (add_sites L empty) = seqZ 0 (L * L)
  ∧ quadratic (add_sites L empty) = ∅.
Proof.
  intros HL. rewrite add_sites_flat, site_labels by done.
  pose proof (foldl_add_variable_seqZ (Z.to_nat (L * L))) as H.
  rewrite Z2Nat.id in H by nia. done.
Qed.

(** ** Couplings *)

Lemma for_each_ext {A S} (xs : list A) (f g : S → A → result S) s :
  (∀ s x, f s x = g s x) → for_each xs f s = for_each xs g s.
Proof.
  intros Hfg. induction xs as [|x xs IH] in s |-*; simpl; [done|].
  rewrite Hfg. destruct (g s x); [done|]. apply IH.
Qed.

Lemma couple_site_ops L x b y :
  couple_site L x b y = for_each (site_ops L x y) apply_op b.
Proof.
  unfold couple_site, site_ops, apply_op.
  repeat case_bool_decide; simpl;
    repeat match goal with |- context [set_quadratic ?b ?u ?v ?w] =>
      destruct (set_quadratic b u v w); simpl end; done.
Qed.

Lemma add_couplings_flat L b :
  add_couplings L b = for_each (all_ops L) apply_op b.
Proof.
  unfold add_couplings, all_ops. rewrite <- for_each_bind.
  apply for_each_ext. intros s x. rewrite <- for_each_bind.
  apply for_each_ext. intros s' y. apply couple_site_ops.
Qed.

Lemma elem_of_all_ops L op :
  op ∈ all_ops L ↔ ∃ x y, 0 ≤ x < L ∧ 0 ≤ y < L ∧ op ∈ site_ops L x y.
Proof.
  unfold all_ops. rewrite list_elem_of_bind. split.
  - intros (x & (y & Hop & Hy)%list_elem_of_bind & Hx).
    apply elem_of_seqZ in Hx, Hy. exists x, y. split_and!; [lia..|done].
  - intros (x & y & Hx & Hy & Hop). exists x. split.
    + apply list_elem_of_bind. exists y. split; [done|]. apply elem_of_seqZ. lia.
    + apply elem_of_seqZ. lia.
Qed.

Lemma elem_of_site_ops L x y op :
  op ∈ site_ops L x y ↔
  op = (x * L + y, x * L + ((y + 1) `mod` L),
        if bool_decide ((x + y) `mod` 2 ≠ 0) then 1 else -1)
  ∨ (x < L - 1 ∧ op = (x * L + y, (x + 1) * L + y, 1)).
Proof.
  unfold site_ops. rewrite elem_of_cons.
  destruct (bool_decide_reflect (x < L - 1)).
  - rewrite list_elem_of_singleton. tauto.
  - rewrite elem_of_nil. tauto.
Qed.

(** Around the cylinder, the neighbour of [y] is [y + 1], or [0] for
    the last one. *)
Lemma succ_mod_cases (L y : Z) :
  0 ≤ y < L →
  ((y + 1) `mod` L = y + 1 ∧ y + 1 < L) ∨ ((y + 1) `mod` L = 0 ∧ y + 1 = L).
Proof.
  intros Hy. destruct (decide (y + 1 < L)) as [Hlt|Hge].
  - left. split; [|done]. apply Z.mod_small. lia.
  - right. assert (y + 1 = L) as -> by lia. split; [|done].
    apply Z.mod_same. lia.
Qed.

(** From size 2 on, every write joins two distinct sites of the lattice. *)
Lemma all_ops_valid L op :
  2 ≤ L → op ∈ all_ops L →
  op.1.1 ≠ op.1.2 ∧ 0 ≤ op.1.1 < L * L ∧ 0 ≤ op.1.2 < L * L.
Proof.
  intros HL (x & y & Hx & Hy & Hop)%elem_of_all_ops.
  apply elem_of_site_ops in Hop as [->|[Hlt ->]]; simpl.
  - destruct (succ_mod_cases L y Hy) as [[-> ?]|[-> ?]]; split_and!; nia.
  - split_and!; nia.
Qed.

Lemma set_quadratic_present b u v w :
  u ≠ v → u ∈ variables b → v ∈ variables b →
  set_quadratic b u v w
  = inr (mkBQM (variables b) (linear b) (<[edge u v := w]> (quadratic b))).
Proof.
  intros Hne Hu Hv. unfold set_quadratic.
  rewrite (bool_decide_false _ Hne), (bool_decide_true _ Hu).
  by rewrite (bool_decide_true _ Hv).
Qed.

Lemma for_each_apply_op ops b :
  (∀ op, op ∈ ops →
         op.1.1 ≠ op.1.2 ∧ op.1.1 ∈ variables b ∧ op.1.2 ∈ variables b) →
  for_each ops apply_op b
  = inr (mkBQM (variables b) (linear b) (foldl write_op (quadratic b) ops)).
Proof.
  induction ops as [|op ops IH] in b |-*; intros Hops.
  - by destruct b.
  - destruct (Hops op) as (Hne & Hu & Hv); [apply elem_of_cons; by left|].
    simpl. unfold apply_op at 1. rewrite set_quadratic_present by done.
    rewrite IH; [done|]. intros op' Hop'. apply Hops, elem_of_cons. by right.
Qed.

(** The last write to an interaction decides its bias: when all writes
    to it agree, that is their common value. *)
Lemma foldl_write_op_lookup ops q k w :
  (∀ op, op ∈ ops → edge op.1.1 op.1.2 = k → op.2 = w) →
  (q !! k = Some w ∨ ∃ op, op ∈ ops ∧ edge op.1.1 op.1.2 = k) →
  foldl write_op q ops !! k = Some w.
Proof.
  induction ops as [|op ops IH] in q |-*; intros Hall Hsome.
  - destruct Hsome as [?|(op & []%elem_of_nil & _)]. done.
  - simpl. apply IH.
    + intros op' Hop'. apply Hall, elem_of_cons. by right.
    + unfold write_op.
      destruct (decide (edge op.1.1 op.1.2 = k)) as [Hk|Hk].
      * left. rewrite Hk, lookup_insert_eq. f_equal.
        apply Hall; [apply elem_of_cons; by left|done].
      * rewrite lookup_insert_ne by done.
        destruct Hsome as [?|(op' & [->|?]%elem_of_cons & ?)]; [by left|done|].
        right. by exists op'.
Qed.

Lemma build_bqm_spec L :
  2 ≤ L →
  build_bqm L
  = inr (mkBQM (seqZ 0 (L * L)) (linear (add_sites L empty))
               (foldl write_op ∅ (all_ops L))).
Proof.
  intros HL. unfold build_bqm.
  destruct (add_sites_spec L) as [Hv Hq]; [lia|].
  rewrite add_couplings_flat, for_each_apply_op, Hv, Hq; [done|].
  intros op Hop. rewrite Hv, !elem_of_seqZ.
  destruct (all_ops_valid L op HL Hop) as (? & ? & ?). split_and!; [done|lia..].
Qed.

Lemma build_bqm_nonpos L : L ≤ 0 → build_bqm L = inr empty.
Proof.
  intros HL. unfold build_bqm, add_couplings, add_sites.
  by rewrite seqZ_nil.
Qed.

Lemma build_bqm_one : build_bqm 1 = inl ValueError.
Proof. vm_compute. reflexivity. Qed.

(** The model is built for every size but 1. *)
Lemma build_bqm_ok L : L ≠ 1 → ∃ bqm, build_bqm L = inr bqm.
Proof.
  intros HL. destruct (decide (L ≤ 0)).
  - eexists. by apply build_bqm_nonpos.
  - eexists. apply build_bqm_spec. lia.
Qed.

(** ** Weights around the cylinder *)

Lemma edge_eq_inv a b c d :
  edge a b = edge c d → (a = c ∧ b = d) ∨ (a = d ∧ b = c).
Proof.
  unfold edge. destruct (Z.leb_spec a b), (Z.leb_spec c d);
    intros [= ? ?]; lia.
Qed.

(** Two sites of one row with the same label are the same site. *)
Lemma site_label_inj L x y x' y' :
  0 ≤ y < L → 0 ≤ y' < L → x * L + y = x' * L + y' → x = x' ∧ y = y'.
Proof. intros Hy Hy' Heq. assert (x = x') by nia. subst. lia. Qed.

(** From size 3 on, an interaction around the cylinder is written once:
    by the site it starts from. *)
Lemma cyclic_edge_written_once L x y op :
  3 ≤ L → 0 ≤ x < L → 0 ≤ y < L →
  op ∈ all_ops L →
  edge op.1.1 op.1.2 = edge (x * L + y) (x * L + ((y + 1) `mod` L)) →
  op.2 = if bool_decide ((x + y) `mod` 2 ≠ 0) then 1 else -1.
Proof.
  intros HL Hx Hy (x' & y' & Hx' & Hy' & Hop)%elem_of_all_ops Hedge.
  apply elem_of_site_ops in Hop as [->|[Hlt ->]]; simpl in *.
  - assert (x' = x ∧ y' = y) as [-> ->]; [|done].
    destruct (succ_mod_cases L y Hy) as [[Hm ?]|[Hm ?]];
      destruct (succ_mod_cases L y' Hy') as [[Hm' ?]|[Hm' ?]];
      rewrite Hm, Hm' in Hedge;
      apply edge_eq_inv in Hedge as [[H1 H2]|[H1 H2]];
      first [ apply (site_label_inj L) in H1 as [? ?]; [lia|lia..]
            | apply (site_label_inj L) in H2 as [? ?]; [lia|lia..] ].
  - exfalso.
    destruct (succ_mod_cases L y Hy) as [[Hm ?]|[Hm ?]];
      rewrite Hm in Hedge;
      apply edge_eq_inv in Hedge as [[H1 H2]|[H1 H2]]; nia.
Qed.

Lemma parity_bias (n : Z) :
  (if bool_decide (n `mod` 2 ≠ 0) then 1 else -1)
  = if Z.even n then -1 else 1.
Proof. rewrite Zmod_even. by destruct (Z.even n). Qed.

Lemma cyclic_weights_from_three (L : Z) : 3 ≤ L → cyclic_weights_by_parity L.
Proof.
  intros HL bqm x y Hb Hx Hy.
  rewrite build_bqm_spec in Hb by lia. injection Hb as <-.
  unfold get_quadratic. simpl. rewrite <- parity_bias.
  apply foldl_write_op_lookup.
  - intros op Hop Hedge. by apply (cyclic_edge_written_once L x y).
  - right.
    exists (x * L + y, x * L + ((y + 1) `mod` L),
            if bool_decide ((x + y) `mod` 2 ≠ 0) then 1 else -1).
    split; [|done].
    apply elem_of_all_ops. exists x, y. split_and!; [lia..|].
    apply elem_of_site_ops. by left.
Qed.

(** C2, as stated, fails at size 2: the two sites of a row write the same
    interaction, the second write (odd parity, [+1]) stays, and the
    interaction between nodes 0 and 1 has bias [+1], not [-1]. *)
Lemma cyclic_weight_size_two_differs :
  ¬ cyclic_weights_by_parity 2
  ∧ ∃ bqm, build_bqm 2 = inr bqm ∧ variables bqm = [0; 1; 2; 3]
           ∧ get_quadratic bqm 0 1 = Some 1
           ∧ get_quadratic bqm 0 1 ≠ Some (-1).
Proof.
  split.
  - intros H.
    assert (get_quadratic Demo.bqm (0 * 2 + 0) (0 * 2 + ((0 + 1) `mod` 2))
            = Some (if Z.even (0 + 0) then -1 else 1)) as Hc.
    { apply H; [by vm_compute|lia..]. }
    vm_compute in Hc. discriminate Hc.
  - exists Demo.bqm. split_and!; by vm_compute.
Qed.

(** C2 (amended): for every positive [L] the logical graph is a function
    of [L] alone (two constructions give the same nodes, edges and
    weights); from size 2 on its nodes are [0 .. L*L-1]; from size 3 on,
    the interaction between node [x*L+y] and its neighbour around the
    cylinder has bias [-1] when [x+y] is even and [+1] when it is odd; at
    size 2 the nodes are [0, 1, 2, 3] and the interaction between nodes
    0 and 1 has bias [+1]. *)
Theorem logical_graph_weights (L : Z) :
  0 < L →
  (∀ r r', build_bqm L = r → build_bqm L = r' → r = r')
  ∧ (2 ≤ L → ∃ bqm, build_bqm L = inr bqm ∧ variables bqm = seqZ 0 (L * L))
  ∧ (3 ≤ L → cyclic_weights_by_parity L)
  ∧ (L = 2 → ∃ bqm, build_bqm L = inr bqm
                    ∧ variables bqm = [0; 1; 2; 3]
                    ∧ get_quadratic bqm 0 1 = Some 1
                    ∧ get_quadratic bqm 2 3 = Some (-1)).
Proof.
  intros HL. split_and!.
  - by intros r r' <- <-.
  - intros HL2. eexists. split; [by apply build_bqm_spec|done].
  - apply cyclic_weights_from_three.
  - intros ->. exists Demo.bqm. split_and!; by vm_compute.
Qed.

Lemma logical_graph_weights_witness :
  (∀ r r', build_bqm 3 = r → build_bqm 3 = r' → r = r')
  ∧ (2 ≤ 3 → ∃ bqm, build_bqm 3 = inr bqm ∧ variables bqm = seqZ 0 (3 * 3))
  ∧ (3 ≤ 3 → cyclic_weights_by_parity 3)
  ∧ (3 = 2 → ∃ bqm, build_bqm 3 = inr bqm
                    ∧ variables bqm = [0; 1; 2; 3]
                    ∧ get_quadratic bqm 0 1 = Some 1
                    ∧ get_quadratic bqm 2 3 = Some (-1)).
Proof. apply (logical_graph_weights 3). lia. Defined.

(** ** Node order *)



(** ** The name of the cache file *)

Lemma chars_app (s t : string) : String.list_ascii_of_string (s +:+ t) = String.list_ascii_of_string s ++ String.list_ascii_of_string t.
Proof. induction s as [|a s IH]; [done|]. simpl. by rewrite <- IH. Qed.

Lemma chars_inj (s t : string) : String.list_ascii_of_string s = String.list_ascii_of_string t → s = t.
Proof.
  intros H. rewrite <- (String.string_of_list_ascii_of_string s), H.
  apply String.string_of_list_ascii_of_string.
Qed.

(** The letter [L] is no digit. *)
Lemma pretty_N_go_no_L (x : N) (s : string) :
  "L"%char ∈ String.list_ascii_of_string (pretty_N_go x s) → "L"%char ∈ String.list_ascii_of_string s.
Proof.
  induction (N.lt_wf_0 x) as [x _ IH] in s |-*.
  destruct (decide (x = 0)%N) as [->|Hx].
  - by rewrite pretty_N_go_0.
  - rewrite pretty_N_go_step by lia. intros H%IH.
    + simpl in H. apply elem_of_cons in H as [H|H]; [|done].
      exfalso. revert H. unfold pretty_N_char. by repeat case_match.
    + apply N.div_lt; lia.
Qed.

Lemma pretty_Z_no_L (z : Z) : "L"%char ∉ String.list_ascii_of_string (pretty z).
Proof.
  destruct z as [|p|p]; unfold pretty, pretty_Z, pretty, pretty_positive,
    pretty, pretty_N.
  - by intros [?%(f_equal Ascii.nat_of_ascii)|[]%elem_of_nil]%elem_of_cons.
  - rewrite decide_False by done. by intros []%pretty_N_go_no_L%elem_of_nil.
  - rewrite decide_False by done. rewrite chars_app.
    intros [[?%(f_equal Ascii.nat_of_ascii)|[]%elem_of_nil]%elem_of_cons
           |[]%pretty_N_go_no_L%elem_of_nil]%elem_of_app. done.
Qed.

Lemma format_02d_no_L (L : Z) : "L"%char ∉ String.list_ascii_of_string (format_02d L).
Proof.
  unfold format_02d. case_bool_decide; [|apply pretty_Z_no_L].
  rewrite chars_app.
  intros [[?%(f_equal Ascii.nat_of_ascii)|[]%elem_of_nil]%elem_of_cons
         |[]%pretty_Z_no_L]%elem_of_app. done.
Qed.

(** A number other than 0 is printed without a leading zero. *)
Lemma pretty_N_go_head (x : N) (s : string) :
  (0 < x)%N → ∃ c t, pretty_N_go x s = String c t ∧ c ≠ "0"%char.
Proof.
  induction (N.lt_wf_0 x) as [x _ IH] in s |-*. intros Hx.
  rewrite pretty_N_go_step by done.
  destruct (decide (x `div` 10 = 0)%N) as [Hq|Hq].
  - rewrite Hq, pretty_N_go_0. eexists _, _. split; [done|].
    apply N.div_small_iff in Hq; [|done]. rewrite N.mod_small by done.
    unfold pretty_N_char. repeat case_match; (done || lia).
  - apply IH; [apply N.div_lt; lia|]. apply N.neq_0_lt_0. done.
Qed.

Lemma pretty_Z_head (z : Z) :
  z ≠ 0 → ∃ c t, pretty z = String c t ∧ c ≠ "0"%char.
Proof.
  destruct z as [|p|p]; intros Hz; [done|..];
    unfold pretty, pretty_Z, pretty, pretty_positive, pretty, pretty_N;
    rewrite decide_False by done.
  - apply pretty_N_go_head. lia.
  - by eexists _, _.
Qed.

Lemma format_02d_inj (L1 L2 : Z) : format_02d L1 = format_02d L2 → L1 = L2.
Proof.
  assert (∀ a b : Z, (String.length (pretty a) < 2)%nat →
                     ¬ (String.length (pretty b) < 2)%nat →
                     "0" +:+ pretty a ≠ pretty b) as Hmixed.
  { intros a b Ha Hb Heq. destruct (decide (b = 0)) as [->|Hb0].
    - apply Hb. vm_compute. lia.
    - destruct (pretty_Z_head b Hb0) as (c & t & Hc & Hne).
      rewrite Hc in Heq. by injection Heq as <- _. }
  unfold format_02d. repeat case_bool_decide; intros Heq.
  - by apply (inj (String.app "0")), (inj pretty) in Heq.
  - by destruct (Hmixed L1 L2).
  - by destruct (Hmixed L2 L1).
  - by apply (inj pretty) in Heq.
Qed.

(** Cutting a list at the last occurrence of a character. *)
Lemma cut_at_first {A} (c : A) (a1 a2 b1 b2 : list A) :
  c ∉ a1 → c ∉ a2 → a1 ++ c :: b1 = a2 ++ c :: b2 → a1 = a2 ∧ b1 = b2.
Proof.
  induction a1 as [|x a1 IH] in a2 |-*; destruct a2 as [|x2 a2]; simpl;
    intros H1 H2 Heq; simplify_eq.
  - done.
  - destruct H2. by left.
  - destruct H1. by left.
  - apply not_elem_of_cons in H1 as [_ H1], H2 as [_ H2].
    destruct (IH a2 H1 H2) as [-> ->]; done.
Qed.

Lemma cut_at_last {A} (c : A) (a1 a2 b1 b2 : list A) :
  c ∉ b1 → c ∉ b2 → a1 ++ c :: b1 = a2 ++ c :: b2 → a1 = a2 ∧ b1 = b2.
Proof.
  intros H1 H2 Heq. apply (f_equal reverse) in Heq.
  rewrite !reverse_app, !reverse_cons, <- !app_assoc in Heq. simpl in Heq.
  apply cut_at_first in Heq as [Hb Ha]; [|by rewrite elem_of_reverse..].
  split; by apply (inj reverse).
Qed.

(** Distinct keys have distinct files. *)
Lemma cache_filename_inj s1 L1 s2 L2 :
  cache_filename s1 L1 = cache_filename s2 L2 → s1 = s2 ∧ L1 = L2.
Proof.
  unfold cache_filename. intros Heq%(inj (String.app _))%(f_equal String.list_ascii_of_string).
  rewrite !chars_app, !app_assoc in Heq.
  apply app_inv_tail in Heq. rewrite <- !app_assoc in Heq.
  change (String.list_ascii_of_string "__L") with ((String.list_ascii_of_string "__") ++ ["L"%char]) in Heq.
  rewrite <- !app_assoc, !(app_assoc (String.list_ascii_of_string _) (String.list_ascii_of_string "__")) in Heq.
  simpl in Heq.
  apply cut_at_last in Heq as [Hs HL]; [|apply format_02d_no_L..].
  split.
  - by apply app_inv_tail, chars_inj in Hs.
  - by apply chars_inj, format_02d_inj in HL.
Qed.

(** ** The load / search / save policy *)

Section Policy.

Context {ndarray hidden : Type}.
Variable np_parse : string → option ndarray.
Variable np_format : ndarray → string.
Variable raster_breadth_subgraph_lower_bound :
  Graph → Graph → hidden → result Z * hidden.
Variable raster_embedding_search :
  Graph → Graph → Z → Z → hidden → result (list (gmap Z Z)) * hidden.
Variable embeddings_to_ndarray : list (gmap Z Z) → list Z → result ndarray.
Variable makedirs_error : @world hidden → string → option exn.
Variable savetxt_error :
  @world hidden → string → string → option (exn * option string).

Abbreviation embed :=
  (embed_square_lattice np_parse np_format
     raster_breadth_subgraph_lower_bound raster_embedding_search
     embeddings_to_ndarray makedirs_error savetxt_error).

(** Unfold one call down to the answers of the collaborators. *)
Ltac step := cbn [res final trace files dirs ext app].
Ltac run_call :=
  cbv beta iota zeta delta
    [embed_square_lattice mbind M_bind bind lift try_except
     np_loadtxt call_lower_bound call_search call_to_ndarray
     os_makedirs np_savetxt read_local ret raise];
  step.

(** A call that is asked not to load. *)
Lemma embed_no_load sampler L kwargs (w : world) :
  embed sampler L false kwargs w
  = match build_bqm L with
    | inl e => mkOutcome (inl e) w []
    | inr _ =>
        match makedirs_error w "cached_embeddings/" with
        | Some e => mkOutcome (inl e) w [EvMakedirs "cached_embeddings/"]
        | None =>
            mkOutcome (inl UnboundLocalError)
              (mkWorld (files w) ({["cached_embeddings/"]} ∪ dirs w) (ext w))
              [EvMakedirs "cached_embeddings/"]
        end
    end.
Proof.
  run_call. destruct (build_bqm L); [done|]. step.
  by destruct (makedirs_error _ _).
Qed.

(** A call that finds its table in the cache. *)
Lemma embed_hit sampler L kwargs (w : world) bqm text table :
  build_bqm L = inr bqm →
  files w !! cache_filename (chip_id sampler) L = Some text →
  np_parse text = Some table →
  embed sampler L true kwargs w
  = mkOutcome (inr (table, bqm)) w
      [EvLoadtxt (cache_filename (chip_id sampler) L)].
Proof. intros Hb Hf Hp. run_call. by rewrite Hb; step; rewrite Hf, Hp. Qed.

(** A call whose cache file is missing or is no integer matrix goes on
    to the lower bound and the search. *)
Lemma embed_miss sampler L kwargs (w : world) bqm :
  build_bqm L = inr bqm →
  cache_unreadable np_parse w (cache_filename (chip_id sampler) L) →
  embed sampler L true kwargs w
  = let G := to_networkx_graph bqm in
    let A := sampler_to_networkx_graph sampler in
    let path := cache_filename (chip_id sampler) L in
    let '(lb, h1) := raster_breadth_subgraph_lower_bound G A (ext w) in
    match lb with
    | inl e =>
        mkOutcome (inl e) (mkWorld (files w) (dirs w) h1)
          [EvLoadtxt path; EvLowerBound G A]
    | inr _ =>
        let '(found, h2) := raster_embedding_search G A 10 6 h1 in
        match found with
        | inl e =>
            mkOutcome (inl e) (mkWorld (files w) (dirs w) h2)
              [EvLoadtxt path; EvLowerBound G A; EvSearch G A 10 6]
        | inr embs =>
            match embeddings_to_ndarray embs (sorted (nodes G)) with
            | inl e =>
                mkOutcome (inl e) (mkWorld (files w) (dirs w) h2)
                  [EvLoadtxt path; EvLowerBound G A; EvSearch G A 10 6;
                   EvToNdarray (sorted (nodes G))]
            | inr table =>
                match makedirs_error (mkWorld (files w) (dirs w) h2)
                        "cached_embeddings/" with
                | Some e =>
                    mkOutcome (inl e) (mkWorld (files w) (dirs w) h2)
                      [EvLoadtxt path; EvLowerBound G A; EvSearch G A 10 6;
                       EvToNdarray (sorted (nodes G));
                       EvMakedirs "cached_embeddings/"]
                | None =>
                    match savetxt_error
                            (mkWorld (files w)
                               ({["cached_embeddings/"]} ∪ dirs w) h2)
                            path (np_format table) with
                    | None =>
                        mkOutcome (inr (table, bqm))
                          (mkWorld (<[path := np_format table]> (files w))
                             ({["cached_embeddings/"]} ∪ dirs w) h2)
                          [EvLoadtxt path; EvLowerBound G A;
                           EvSearch G A 10 6; EvToNdarray (sorted (nodes G));
                           EvMakedirs "cached_embeddings/"; EvSavetxt path]
                    | Some (e, written) =>
                        mkOutcome (inl e)
                          (mkWorld
                             (match written with
                              | Some part => <[path := part]> (files w)
                              | None => files w
                              end)
                             ({["cached_embeddings/"]} ∪ dirs w) h2)
                          [EvLoadtxt path; EvLowerBound G A;
                           EvSearch G A 10 6; EvToNdarray (sorted (nodes G));
                           EvMakedirs "cached_embeddings/"; EvSavetxt path]
                    end
                end
            end
        end
    end.
Proof.
  intros Hb Hmiss. run_call. rewrite Hb. step.
  assert (match files w !! cache_filename (chip_id sampler) L with
          | Some text => np_parse text = None
          | None => True
          end) as Hload.
  { destruct Hmiss as [->|(text & -> & ?)]; done. }
  destruct (files w !! cache_filename (chip_id sampler) L) as [text|];
    [rewrite Hload|]; step;
    destruct (raster_breadth_subgraph_lower_bound _ _ _) as [[?|?] h1];
    step; try done;
    destruct (raster_embedding_search _ _ _ _ _) as [[?|embs] h2];
    step; try done;
    (destruct (embeddings_to_ndarray _ _); [done|]);
    step; (destruct (makedirs_error _ _); [done|]);
    step; by destruct (savetxt_error _ _ _) as [[? [?|]]|].
Qed.

(** Every call is one of: the model cannot be built, no load was asked
    for, a hit, or a miss. *)
Lemma embed_cases sampler L try_to_load kwargs (w : world) :
  (∃ e, build_bqm L = inl e
        ∧ embed sampler L try_to_load kwargs w = mkOutcome (inl e) w [])
  ∨ (∃ bqm, build_bqm L = inr bqm ∧
       (try_to_load = false
        ∨ (try_to_load = true ∧
           ∃ text table,
             files w !! cache_filename (chip_id sampler) L = Some text
             ∧ np_parse text = Some table)
        ∨ (try_to_load = true ∧
           cache_unreadable np_parse w
             (cache_filename (chip_id sampler) L)))).
Proof.
  destruct (build_bqm L) as [e|bqm] eqn:Hb.
  - left. exists e. split; [done|]. run_call. by rewrite Hb.
  - right. exists bqm. split; [done|].
    destruct try_to_load; [|by left]. right.
    destruct (files w !! cache_filename (chip_id sampler) L) as [text|]
      eqn:Hf; [|right; split; [done|by left]].
    destruct (np_parse text) as [table|] eqn:Hp.
    + left. split; [done|]. by exists text, table.
    + right. split; [done|]. right. by exists text.
Qed.

(** What any call may do: the events it can log, and the one file it
    can change. *)
Lemma embed_envelope sampler L try_to_load kwargs (w : world) :
  (∀ ev, ev ∈ trace (embed sampler L try_to_load kwargs w) →
     ev = EvMakedirs "cached_embeddings/"
     ∨ ev = EvLoadtxt (cache_filename (chip_id sampler) L)
     ∨ ev = EvSavetxt (cache_filename (chip_id sampler) L)
     ∨ ∃ bqm, build_bqm L = inr bqm ∧
         (ev = EvLowerBound (to_networkx_graph bqm)
                 (sampler_to_networkx_graph sampler)
          ∨ ev = EvSearch (to_networkx_graph bqm)
                   (sampler_to_networkx_graph sampler) 10 6
          ∨ ev = EvToNdarray (sorted (nodes (to_networkx_graph bqm)))))
  ∧ (∀ q, q ≠ cache_filename (chip_id sampler) L →
       files (final (embed sampler L try_to_load kwargs w)) !! q
       = files w !! q).
Proof.
  destruct (embed_cases sampler L try_to_load kwargs w)
    as [(e & Hb & ->)|(bqm & Hb & [->|[(-> & text & table & Hf & Hp)
                                      |(-> & Hmiss)]])].
  - split; [by intros ev []%elem_of_nil|done].
  - rewrite embed_no_load, Hb.
    destruct (makedirs_error _ _); (split; [|done]);
      intros ev ->%list_elem_of_singleton; by left.
  - rewrite (embed_hit _ _ _ _ _ _ _ Hb Hf Hp). split; [|done].
    intros ev ->%list_elem_of_singleton. right. by left.
  - rewrite (embed_miss _ _ _ _ _ Hb Hmiss). step.
    destruct (raster_breadth_subgraph_lower_bound _ _ _) as [[?|?] h1];
      [|destruct (raster_embedding_search _ _ _ _ _) as [[?|embs] h2];
        [|destruct (embeddings_to_ndarray _ _);
          [|destruct (makedirs_error _ _);
            [|destruct (savetxt_error _ _ _) as [[? [?|]]|]]]]];
      step; (split; [|intros q Hq; by rewrite ?lookup_insert_ne]);
      intros ev Hev;
      repeat (apply elem_of_cons in Hev as [->|Hev]);
      try (by apply elem_of_nil in Hev); eauto 10.
Qed.

(** The conversion is logged only by a miss, with the sorted nodes of
    the logical graph, and the table of a call that converts is what
    the conversion gave. *)
Lemma embed_conversion sampler L try_to_load kwargs (w : world) order :
  EvToNdarray order ∈ trace (embed sampler L try_to_load kwargs w) →
  (∃ bqm, build_bqm L = inr bqm
          ∧ order = sorted (nodes (to_networkx_graph bqm)))
  ∧ (∀ table b,
       res (embed sampler L try_to_load kwargs w) = inr (table, b) →
       ∃ embs, embeddings_to_ndarray embs order = inr table).
Proof.
  destruct (embed_cases sampler L try_to_load kwargs w)
    as [(e & Hb & ->)|(bqm & Hb & [->|[(-> & text & table & Hf & Hp)
                                      |(-> & Hmiss)]])].
  - by intros []%elem_of_nil.
  - rewrite embed_no_load, Hb.
    destruct (makedirs_error _ _);
      by intros ?%list_elem_of_singleton.
  - rewrite (embed_hit _ _ _ _ _ _ _ Hb Hf Hp).
    by intros ?%list_elem_of_singleton.
  - rewrite (embed_miss _ _ _ _ _ Hb Hmiss). step.
    destruct (raster_breadth_subgraph_lower_bound _ _ _) as [[?|?] h1];
      [|destruct (raster_embedding_search _ _ _ _ _) as [[?|embs] h2];
        [|destruct (embeddings_to_ndarray _ _) eqn:Hconv;
          [|destruct (makedirs_error _ _);
            [|destruct (savetxt_error _ _ _) as [[? [?|]]|]]]]];
      step; intros Hev;
      repeat (apply elem_of_cons in Hev as [Hev|Hev]; try discriminate Hev);
      try (by apply elem_of_nil in Hev);
      injection Hev as ->; (split; [by exists bqm|]);
      intros table' b [= <- <-]. by exists embs.
Qed.

(** ** The claims *)

(** C1: a call with [try_to_load=False] should search, write the cache
    file and return the table.  It does none of these: the search is
    inside the [if try_to_load:] block, so the local [embeddings] is
    unbound when [np.savetxt] is reached.  For every size the call
    returns nothing, leaves every file as it was, and logs neither a
    search nor a write; at size 2 it creates the directory and raises
    [UnboundLocalError], or, where the directory cannot be made, raises
    the exception of [os.makedirs]. *)
Theorem no_load_skips_search_and_raises sampler L kwargs (w : world) :
  (∀ r, res (embed sampler L false kwargs w) ≠ inr r)
  ∧ files (final (embed sampler L false kwargs w)) = files w
  ∧ (∀ S T timeout raster_breadth,
       EvSearch S T timeout raster_breadth
       ∉ trace (embed sampler L false kwargs w))
  ∧ (∀ path, EvSavetxt path ∉ trace (embed sampler L false kwargs w))
  ∧ embed sampler 2 false kwargs w
    = match makedirs_error w "cached_embeddings/" with
      | Some e => mkOutcome (inl e) w [EvMakedirs "cached_embeddings/"]
      | None =>
          mkOutcome (inl UnboundLocalError)
            (mkWorld (files w) ({["cached_embeddings/"]} ∪ dirs w) (ext w))
            [EvMakedirs "cached_embeddings/"]
      end.
Proof.
  assert (build_bqm 2 = inr Demo.bqm) as Hb2 by by vm_compute.
  rewrite !embed_no_load, Hb2. split_and!; [| | | |reflexivity].
  - intros r. destruct (build_bqm L); [done|].
    by destruct (makedirs_error _ _).
  - destruct (build_bqm L); [done|].
    by destruct (makedirs_error _ _).
  - intros S T timeout raster_breadth. destruct (build_bqm L); step.
    + apply not_elem_of_nil.
    + destruct (makedirs_error _ _); step;
        rewrite list_elem_of_singleton; discriminate.
  - intros path. destruct (build_bqm L); step.
    + apply not_elem_of_nil.
    + destruct (makedirs_error _ _); step;
        rewrite list_elem_of_singleton; discriminate.
Qed.

(** C3: the round trip starts with a call with [try_to_load=False],
    and that call never completes: at size 2, on a cache that has no
    file for the key, it raises [UnboundLocalError] (or the exception
    of [os.makedirs], where the directory cannot be made) and persists
    nothing, so the call with
    [try_to_load=True] that follows finds no file either and goes to the
    lower bound and the search. *)
Theorem round_trip_first_call_persists_nothing sampler kwargs kwargs'
    (w : world) :
  files w !! cache_filename (chip_id sampler) 2 = None →
  res (embed sampler 2 false kwargs w)
  = inl (match makedirs_error w "cached_embeddings/" with
         | Some e => e
         | None => UnboundLocalError
         end)
  ∧ files (final (embed sampler 2 false kwargs w)) = files w
  ∧ ext (final (embed sampler 2 false kwargs w)) = ext w
  ∧ ∃ rest,
      trace (embed sampler 2 true kwargs'
               (final (embed sampler 2 false kwargs w)))
      = EvLoadtxt (cache_filename (chip_id sampler) 2)
        :: EvLowerBound (to_networkx_graph Demo.bqm)
             (sampler_to_networkx_graph sampler)
        :: rest.
Proof.
  intros Hnone. assert (build_bqm 2 = inr Demo.bqm) as Hb by by vm_compute.
  rewrite embed_no_load, Hb.
  destruct (makedirs_error _ _); step;
    (split_and!; [reflexivity..|]);
    (rewrite (embed_miss _ _ _ _ Demo.bqm Hb); [|by left]); step;
    (destruct (raster_breadth_subgraph_lower_bound _ _ _) as [[?|?] h1];
      [|destruct (raster_embedding_search _ _ _ _ _) as [[?|embs] h2];
        [|destruct (embeddings_to_ndarray _ _);
          [|destruct (makedirs_error _ _);
            [|destruct (savetxt_error _ _ _) as [[? [?|]]|]]]]]);
    step; by eexists.
Qed.

(** C4: with [try_to_load=True], when the cache file is absent or is
    no integer matrix, the failure of the read stays inside: the lower
    bound and the search are called, and when they and the conversion
    give a table, and the file system lets the directory be made and
    the file be written, the file of the key is overwritten with that
    table and the table is returned with the logical graph. *)
Theorem unreadable_cache_falls_back sampler L kwargs (w : world)
    bqm lb h1 embs h2 table :
  build_bqm L = inr bqm →
  cache_unreadable np_parse w (cache_filename (chip_id sampler) L) →
  raster_breadth_subgraph_lower_bound (to_networkx_graph bqm)
    (sampler_to_networkx_graph sampler) (ext w) = (inr lb, h1) →
  raster_embedding_search (to_networkx_graph bqm)
    (sampler_to_networkx_graph sampler) 10 6 h1 = (inr embs, h2) →
  embeddings_to_ndarray embs (sorted (nodes (to_networkx_graph bqm)))
  = inr table →
  makedirs_error (mkWorld (files w) (dirs w) h2) "cached_embeddings/" = None →
  savetxt_error (mkWorld (files w) ({["cached_embeddings/"]} ∪ dirs w) h2)
    (cache_filename (chip_id sampler) L) (np_format table) = None →
  embed sampler L true kwargs w
  = mkOutcome (inr (table, bqm))
      (mkWorld
         (<[cache_filename (chip_id sampler) L := np_format table]> (files w))
         ({["cached_embeddings/"]} ∪ dirs w) h2)
      [EvLoadtxt (cache_filename (chip_id sampler) L);
       EvLowerBound (to_networkx_graph bqm)
         (sampler_to_networkx_graph sampler);
       EvSearch (to_networkx_graph bqm)
         (sampler_to_networkx_graph sampler) 10 6;
       EvToNdarray (sorted (nodes (to_networkx_graph bqm)));
       EvMakedirs "cached_embeddings/";
       EvSavetxt (cache_filename (chip_id sampler) L)].
Proof.
  intros Hb Hmiss Hlb Hsearch Hconv Hmk Hopen.
  rewrite (embed_miss _ _ _ _ _ Hb Hmiss). step.
  by rewrite Hlb, Hsearch, Hconv, Hmk, Hopen.
Qed.

(** C5: with [try_to_load=True], when the cache file exists and is an
    integer matrix, the call returns that matrix and the logical graph;
    the read is all it does: no search, no directory, no write, and the
    world is as before. *)
Theorem readable_cache_returns_at_once sampler L kwargs (w : world)
    bqm text table :
  build_bqm L = inr bqm →
  files w !! cache_filename (chip_id sampler) L = Some text →
  np_parse text = Some table →
  embed sampler L true kwargs w
  = mkOutcome (inr (table, bqm)) w
      [EvLoadtxt (cache_filename (chip_id sampler) L)].
Proof. apply embed_hit. Qed.


(** C7: the cache file of a key is
    [cached_embeddings/<chip id>__L<LL>_square_embeddings_cached.txt],
    with [L] printed in at least two characters; two keys with the same
    file are the same key; a call reads and writes no file but the one
    of its key, and leaves the file of every other key as it was. *)
Theorem cache_key_isolation sampler L try_to_load kwargs (w : world) :
  cache_filename (chip_id sampler) L
  = "cached_embeddings/" +:+ chip_id sampler +:+ "__L" +:+ format_02d L
      +:+ "_square_embeddings_cached.txt"
  ∧ (format_02d L = pretty L ∨ format_02d L = "0" +:+ pretty L)
  ∧ (2 ≤ String.length (format_02d L))%nat
  ∧ format_02d 4 = "04" ∧ format_02d 5 = "05" ∧ format_02d 12 = "12"
  ∧ (∀ chip' L',
       cache_filename chip' L' = cache_filename (chip_id sampler) L →
       chip' = chip_id sampler ∧ L' = L)
  ∧ (∀ path,
       EvLoadtxt path ∈ trace (embed sampler L try_to_load kwargs w)
       ∨ EvSavetxt path ∈ trace (embed sampler L try_to_load kwargs w) →
       path = cache_filename (chip_id sampler) L)
  ∧ (∀ chip' L',
       (chip', L') ≠ (chip_id sampler, L) →
       files (final (embed sampler L try_to_load kwargs w))
         !! cache_filename chip' L'
       = files w !! cache_filename chip' L').
Proof.
  destruct (embed_envelope sampler L try_to_load kwargs w) as [Hev Hframe].
  split_and!; [done| | |done..| | |].
  - unfold format_02d. case_bool_decide; [by right|by left].
  - unfold format_02d. case_bool_decide; [|lia].
    destruct (decide (L = 0)) as [->|HL0]; [vm_compute; lia|].
    destruct (pretty_Z_head L HL0) as (c & t & -> & _).
    change (2 ≤ S (S (String.length t)))%nat. lia.
  - intros chip' L'. apply cache_filename_inj.
  - intros path [H|H]; apply Hev in H;
      destruct H as [H|[H|[H|(b & _ & [H|[H|H]])]]]; congruence.
  - intros chip' L' Hne. apply Hframe. intros Heq. apply Hne.
    apply cache_filename_inj in Heq as [-> ->]. done.
Qed.

(** C8: when the read of the cache fails, the lower bound is computed
    and the search raises, the call raises the same exception; the
    search was called once, with raster breadth 6, and nothing was
    created or written: files and directories are as before. *)
Theorem search_failure_propagates sampler L kwargs (w : world)
    bqm lb h1 e h2 :
  build_bqm L = inr bqm →
  cache_unreadable np_parse w (cache_filename (chip_id sampler) L) →
  raster_breadth_subgraph_lower_bound (to_networkx_graph bqm)
    (sampler_to_networkx_graph sampler) (ext w) = (inr lb, h1) →
  raster_embedding_search (to_networkx_graph bqm)
    (sampler_to_networkx_graph sampler) 10 6 h1 = (inl e, h2) →
  embed sampler L true kwargs w
  = mkOutcome (inl e) (mkWorld (files w) (dirs w) h2)
      [EvLoadtxt (cache_filename (chip_id sampler) L);
       EvLowerBound (to_networkx_graph bqm)
         (sampler_to_networkx_graph sampler);
       EvSearch (to_networkx_graph bqm)
         (sampler_to_networkx_graph sampler) 10 6].
Proof.
  intros Hb Hmiss Hlb Hsearch.
  rewrite (embed_miss _ _ _ _ _ Hb Hmiss). step.
  by rewrite Hlb, Hsearch.
Qed.

(** C9: the keyword arguments change nothing: two calls that differ
    only in them have the same result, final world and events; and
    every search a call makes has [timeout=10] and
    [raster_breadth=6]. *)
Theorem kwargs_have_no_effect sampler L try_to_load kwargs1 kwargs2
    (w : world) :
  embed sampler L try_to_load kwargs1 w
  = embed sampler L try_to_load kwargs2 w
  ∧ (∀ S T timeout raster_breadth,
       EvSearch S T timeout raster_breadth
       ∈ trace (embed sampler L try_to_load kwargs1 w) →
       timeout = 10 ∧ raster_breadth = 6).
Proof.
  split; [done|]. intros S T timeout raster_breadth H.
  apply (embed_envelope sampler L try_to_load kwargs1 w) in H.
  destruct H as [H|[H|[H|(b & _ & [H|[H|H]])]]]; try discriminate H.
  by injection H as -> -> -> ->.
Qed.

(** C10: at size 1 the neighbour of a site around the cylinder is the
    site itself, [set_quadratic] refuses an interaction of a variable
    with itself, and the call raises [ValueError] while it builds the
    model: nothing is read, searched or written, whatever the
    arguments. *)
Theorem size_one_fails_in_construction sampler try_to_load kwargs
    (w : world) :
  (∀ x y, 0 ≤ x < 1 → 0 ≤ y < 1 →
          x * 1 + ((y + 1) `mod` 1) = x * 1 + y)
  ∧ (∀ b u bias, set_quadratic b u u bias = inl ValueError)
  ∧ build_bqm 1 = inl ValueError
  ∧ embed sampler 1 try_to_load kwargs w = mkOutcome (inl ValueError) w [].
Proof.
  split_and!.
  - intros x y Hx Hy. rewrite Z.mod_1_r. lia.
  - intros b u bias. unfold set_quadratic. by rewrite bool_decide_true.
  - apply build_bqm_one.
  - run_call. by rewrite build_bqm_one.
Qed.

(** ** Further properties of a call *)

(** The shape of a call that loads: a hit, a miss that returns, or a
    miss cut short at the first step that raises, be it a collaborator,
    [os.makedirs] or [np.savetxt]. *)
Lemma embed_load_cases sampler L kwargs (w : world) bqm :
  build_bqm L = inr bqm →
  (∃ text table,
     files w !! cache_filename (chip_id sampler) L = Some text
     ∧ np_parse text = Some table
     ∧ embed sampler L true kwargs w
       = mkOutcome (inr (table, bqm)) w
           [EvLoadtxt (cache_filename (chip_id sampler) L)])
  ∨ (cache_unreadable np_parse w (cache_filename (chip_id sampler) L)
     ∧ ((∃ e fs d h rest,
           embed sampler L true kwargs w
           = mkOutcome (inl e) (mkWorld fs d h)
               (EvLoadtxt (cache_filename (chip_id sampler) L) :: rest)
           ∧ (EvLoadtxt (cache_filename (chip_id sampler) L) :: rest)
             `prefix_of`
             [EvLoadtxt (cache_filename (chip_id sampler) L);
              EvLowerBound (to_networkx_graph bqm)
                (sampler_to_networkx_graph sampler);
              EvSearch (to_networkx_graph bqm)
                (sampler_to_networkx_graph sampler) 10 6;
              EvToNdarray (sorted (nodes (to_networkx_graph bqm)));
              EvMakedirs "cached_embeddings/";
              EvSavetxt (cache_filename (chip_id sampler) L)]
           ∧ (fs = files w
              ∨ ∃ part,
                  fs = <[cache_filename (chip_id sampler) L := part]> (files w))
           ∧ (d = dirs w ∨ d = {["cached_embeddings/"]} ∪ dirs w)
           ∧ (EvMakedirs "cached_embeddings/" ∉ rest
              → fs = files w ∧ d = dirs w))
        ∨ (∃ table h,
             embed sampler L true kwargs w
             = mkOutcome (inr (table, bqm))
                 (mkWorld
                    (<[cache_filename (chip_id sampler) L := np_format table]>
                       (files w))
                    ({["cached_embeddings/"]} ∪ dirs w) h)
                 [EvLoadtxt (cache_filename (chip_id sampler) L);
                  EvLowerBound (to_networkx_graph bqm)
                    (sampler_to_networkx_graph sampler);
                  EvSearch (to_networkx_graph bqm)
                    (sampler_to_networkx_graph sampler) 10 6;
                  EvToNdarray (sorted (nodes (to_networkx_graph bqm)));
                  EvMakedirs "cached_embeddings/";
                  EvSavetxt (cache_filename (chip_id sampler) L)]))).
Proof.
  intros Hb.
  destruct (embed_cases sampler L true kwargs w)
    as [(e & Hb' & _)|(bqm' & Hb' & [?|[(_ & text & table & Hf & Hp)
                                       |(_ & Hmiss)]])];
    [congruence|done| |]; assert (bqm' = bqm) as -> by congruence.
  - left. exists text, table.
    split_and!; [done..|by apply (embed_hit _ _ _ _ _ text)].
  - right. split; [done|]. rewrite (embed_miss _ _ _ _ _ Hb Hmiss). step.
    destruct (raster_breadth_subgraph_lower_bound _ _ _) as [[e|?] h1];
      [|destruct (raster_embedding_search _ _ _ _ _) as [[e|embs] h2];
        [|destruct (embeddings_to_ndarray _ _) as [e|table];
          [|destruct (makedirs_error _ _) as [e|];
            [|destruct (savetxt_error _ _ _) as [[e [part|]]|]]]]].
    + left. exists e, (files w), (dirs w), h1. eexists.
      split_and!; [done|by eexists [_; _; _; _]|by left|by left|done].
    + left. exists e, (files w), (dirs w), h2. eexists.
      split_and!; [done|by eexists [_; _; _]|by left|by left|done].
    + left. exists e, (files w), (dirs w), h2. eexists.
      split_and!; [done|by eexists [_; _]|by left|by left|done].
    + left. exists e, (files w), (dirs w), h2. eexists.
      split_and!; [done|by eexists [_]|by left|by left|done].
    + left. eexists e, _, ({["cached_embeddings/"]} ∪ dirs w), h2, _.
      split_and!; [done|by exists []|right; by exists part|by right|].
      intros Hno. destruct Hno. do 3 right. left.
    + left. exists e, (files w), ({["cached_embeddings/"]} ∪ dirs w), h2.
      eexists. split_and!; [done|by exists []|by left|by right|].
      intros Hno. destruct Hno. do 3 right. left.
    + right. by exists table, h2.
Qed.

(** X6: a size that is zero or negative is not rejected: the model is
    empty, the call still starts by reading the cache file of that size,
    a call that returns hands back the empty model, and a conversion is
    given the empty node order. *)
Theorem nonpositive_size_is_not_rejected sampler L kwargs (w : world) :
  L ≤ 0 →
  (∃ rest,
     trace (embed sampler L true kwargs w)
     = EvLoadtxt (cache_filename (chip_id sampler) L) :: rest)
  ∧ (∀ table b,
       res (embed sampler L true kwargs w) = inr (table, b) → b = empty)
  ∧ (∀ order,
       EvToNdarray order ∈ trace (embed sampler L true kwargs w) →
       order = []).
Proof.
  intros HL. pose proof (build_bqm_nonpos L HL) as Hb. split_and!.
  - destruct (embed_load_cases sampler L kwargs w empty Hb)
      as [(text & table & _ & _ & ->)
         |(_ & [(e & fs & d & h & rest & -> & _)|(table & h & ->)])]; by eexists.
  - destruct (embed_load_cases sampler L kwargs w empty Hb)
      as [(text & table & _ & _ & ->)
         |(_ & [(e & fs & d & h & rest & -> & _)|(table & h & ->)])];
      step; by intros ?? [= _ <-].
  - intros order [(b & Hb' & ->) _]%embed_conversion.
    rewrite Hb in Hb'. by injection Hb' as <-.
Qed.

(** A call that returns has built the model it returns, and leaves the
    table it returns in the cache file of its key. *)
Lemma embed_returned sampler L try_to_load kwargs (w : world) table bqm :
  res (embed sampler L try_to_load kwargs w) = inr (table, bqm) →
  build_bqm L = inr bqm
  ∧ ∃ text,
      files (final (embed sampler L try_to_load kwargs w))
        !! cache_filename (chip_id sampler) L = Some text
      ∧ (np_parse text = Some table ∨ text = np_format table).
Proof.
  destruct (embed_cases sampler L try_to_load kwargs w)
    as [(e & Hb & ->)|(b & Hb & [->|[(-> & _)|(-> & _)]])]; [done| | |].
  - rewrite embed_no_load, Hb.
    by destruct (makedirs_error _ _).
  - destruct (embed_load_cases sampler L kwargs w b Hb)
      as [(text & t & Hf & Hp & ->)
         |(_ & [(e & fs & d & h & rest & -> & _)|(t & h & ->)])];
      step; [|done|]; intros [= <- <-]; (split; [done|]).
    + exists text. split; [done|by left].
    + exists (np_format t). split; [apply lookup_insert_eq|by right].
  - destruct (embed_load_cases sampler L kwargs w b Hb)
      as [(text & t & Hf & Hp & ->)
         |(_ & [(e & fs & d & h & rest & -> & _)|(t & h & ->)])];
      step; [|done|]; intros [= <- <-]; (split; [done|]).
    + exists text. split; [done|by left].
    + exists (np_format t). split; [apply lookup_insert_eq|by right].
Qed.

(** X7: a call that returns leaves a cache file for its key, and that
    file holds the returned table: it either parses to the table (it was
    read) or is the text printed from the table (it was just written). *)
Theorem returned_table_is_cached sampler L try_to_load kwargs (w : world)
    table bqm :
  res (embed sampler L try_to_load kwargs w) = inr (table, bqm) →
  ∃ text,
    files (final (embed sampler L try_to_load kwargs w))
      !! cache_filename (chip_id sampler) L = Some text
    ∧ (np_parse text = Some table ∨ text = np_format table).
Proof.
  intros Hres.
  destruct (embed_returned sampler L try_to_load kwargs w table bqm Hres)
    as (_ & text & Hf & Hp).
  by exists text.
Qed.

(** X8: when the text printed from a table parses back to it, a call
    that returned a table is followed, for the same chip and size, by a
    call that returns the same table and model after the read alone: no
    lower bound, no search, no write, and the world stays as the first
    call left it. *)
Theorem next_call_reads_what_was_returned sampler sampler' L try_to_load
    kwargs kwargs' (w : world) table bqm :
  chip_id sampler' = chip_id sampler →
  np_parse (np_format table) = Some table →
  res (embed sampler L try_to_load kwargs w) = inr (table, bqm) →
  embed sampler' L true kwargs'
    (final (embed sampler L try_to_load kwargs w))
  = mkOutcome (inr (table, bqm))
      (final (embed sampler L try_to_load kwargs w))
      [EvLoadtxt (cache_filename (chip_id sampler) L)].
Proof.
  intros Hchip Hcodec Hres.
  destruct (embed_returned sampler L try_to_load kwargs w table bqm Hres)
    as (Hb & text & Hf & Hp).
  rewrite <- Hchip.
  apply (embed_hit _ _ _ _ bqm text table Hb); [by rewrite Hchip|].
  by destruct Hp as [?| ->].
Qed.

(** X9: a call never deletes: every file that existed before it exists
    after it, every directory too, and the only directory it can add is
    [cached_embeddings/]. *)
Theorem call_never_deletes sampler L try_to_load kwargs (w : world) :
  (∀ q, is_Some (files w !! q) →
        is_Some (files (final (embed sampler L try_to_load kwargs w)) !! q))
  ∧ dirs w ⊆ dirs (final (embed sampler L try_to_load kwargs w))
  ∧ dirs (final (embed sampler L try_to_load kwargs w))
    ⊆ {["cached_embeddings/"]} ∪ dirs w.
Proof.
  destruct (embed_cases sampler L try_to_load kwargs w)
    as [(e & Hb & ->)|(b & Hb & [->|[(-> & _)|(-> & _)]])].
  - step. split_and!; [done|set_solver..].
  - rewrite embed_no_load, Hb.
    destruct (makedirs_error _ _); step;
      (split_and!; [done|set_solver..]).
  - destruct (embed_load_cases sampler L kwargs w b Hb)
      as [(text & t & _ & _ & ->)
         |(_ & [(e & fs & d & h & rest & -> & _ & [->|[part ->]]
                  & [->| ->] & _)
               |(t & h & ->)])];
      step; (split_and!; [|set_solver..]); try done;
      intros q Hq; rewrite lookup_insert; by case_decide.
  - destruct (embed_load_cases sampler L kwargs w b Hb)
      as [(text & t & _ & _ & ->)
         |(_ & [(e & fs & d & h & rest & -> & _ & [->|[part ->]]
                  & [->| ->] & _)
               |(t & h & ->)])];
      step; (split_and!; [|set_solver..]); try done;
      intros q Hq; rewrite lookup_insert; by case_decide.
Qed.

(** X10: [np.savetxt] is called only on a miss, on the file of the
    call's own key, after [os.makedirs], and with a table that the
    search and the conversion of this call produced; when the call then
    returns, it returns that table and the file holds the text printed
    from it.  (The write itself may still raise: see X18.) *)
Theorem cache_written_only_with_fresh_table sampler L try_to_load kwargs
    (w : world) path :
  EvSavetxt path ∈ trace (embed sampler L try_to_load kwargs w) →
  try_to_load = true
  ∧ path = cache_filename (chip_id sampler) L
  ∧ cache_unreadable np_parse w path
  ∧ "cached_embeddings/"
    ∈ dirs (final (embed sampler L try_to_load kwargs w))
  ∧ ∃ bqm lb h1 embs h2 table,
      build_bqm L = inr bqm
      ∧ raster_breadth_subgraph_lower_bound (to_networkx_graph bqm)
          (sampler_to_networkx_graph sampler) (ext w) = (inr lb, h1)
      ∧ raster_embedding_search (to_networkx_graph bqm)
          (sampler_to_networkx_graph sampler) 10 6 h1 = (inr embs, h2)
      ∧ embeddings_to_ndarray embs (sorted (nodes (to_networkx_graph bqm)))
        = inr table
      ∧ (∀ r, res (embed sampler L try_to_load kwargs w) = inr r →
              r = (table, bqm)
              ∧ files (final (embed sampler L try_to_load kwargs w)) !! path
                = Some (np_format table)).
Proof.
  destruct (embed_cases sampler L try_to_load kwargs w)
    as [(e & Hb & ->)|(b & Hb & [->|[(-> & text & t & Hf & Hp)
                                    |(-> & Hmiss)]])].
  - by intros ?%elem_of_nil.
  - rewrite embed_no_load, Hb.
    destruct (makedirs_error _ _);
      by intros ?%list_elem_of_singleton.
  - rewrite (embed_hit _ _ _ _ _ _ _ Hb Hf Hp).
    by intros ?%list_elem_of_singleton.
  - rewrite (embed_miss _ _ _ _ _ Hb Hmiss). step.
    destruct (raster_breadth_subgraph_lower_bound _ _ _)
      as [[e|lb] h1] eqn:Hlb;
      [|destruct (raster_embedding_search _ _ _ _ _)
          as [[e|embs] h2] eqn:Hsearch;
        [|destruct (embeddings_to_ndarray _ _) as [e|table] eqn:Hconv;
          [|destruct (makedirs_error _ _);
            [|destruct (savetxt_error _ _ _) as [[? [?|]]|]]]]];
      step; intros Hin;
      repeat (apply elem_of_cons in Hin as [Hin|Hin]; try discriminate Hin);
      try (by apply elem_of_nil in Hin);
      injection Hin as ->;
      (split_and!; [done..|set_solver|]);
      exists b, lb, h1, embs, h2, table; (split_and!; [done..|]);
      intros r [= <-]; (split; [done|]); apply lookup_insert_eq.
Qed.

(** X11: a call touches the disk only from [os.makedirs] on: a call that
    did not get there, because it found its table in the cache or
    because the model, the lower bound, the search or the conversion
    raised, leaves every file and every directory as it was. *)
Theorem disk_untouched_before_makedirs sampler L try_to_load kwargs
    (w : world) :
  EvMakedirs "cached_embeddings/"
  ∉ trace (embed sampler L try_to_load kwargs w) →
  files (final (embed sampler L try_to_load kwargs w)) = files w
  ∧ dirs (final (embed sampler L try_to_load kwargs w)) = dirs w.
Proof.
  destruct (embed_cases sampler L try_to_load kwargs w)
    as [(e' & Hb & ->)|(b & Hb & [->|[(-> & _)|(-> & _)]])]; [done| | |].
  - rewrite embed_no_load, Hb.
    destruct (makedirs_error _ _); step; [done|].
    intros Hno. destruct Hno. by left.
  - destruct (embed_load_cases sampler L kwargs w b Hb)
      as [(text & t & _ & _ & ->)
         |(_ & [(e' & fs & d & h & rest & -> & _ & _ & _ & Hd)|(t & h & ->)])];
      step; [done| |].
    + intros Hno. apply Hd. intros Hin. apply Hno. by right.
    + intros Hno. destruct Hno. do 4 right. by left.
  - destruct (embed_load_cases sampler L kwargs w b Hb)
      as [(text & t & _ & _ & ->)
         |(_ & [(e' & fs & d & h & rest & -> & _ & _ & _ & Hd)|(t & h & ->)])];
      step; [done| |].
    + intros Hno. apply Hd. intros Hin. apply Hno. by right.
    + intros Hno. destruct Hno. do 4 right. by left.
Qed.

(** X12: a call that loads does things in one order and each at most
    once: the read of the cache file comes first, and what follows is a
    beginning of lower bound, search, conversion, makedirs, write. *)
Theorem events_follow_program_order sampler L kwargs (w : world) bqm :
  build_bqm L = inr bqm →
  (∃ rest,
     trace (embed sampler L true kwargs w)
     = EvLoadtxt (cache_filename (chip_id sampler) L) :: rest)
  ∧ trace (embed sampler L true kwargs w)
    `prefix_of`
    [EvLoadtxt (cache_filename (chip_id sampler) L);
     EvLowerBound (to_networkx_graph bqm)
       (sampler_to_networkx_graph sampler);
     EvSearch (to_networkx_graph bqm)
       (sampler_to_networkx_graph sampler) 10 6;
     EvToNdarray (sorted (nodes (to_networkx_graph bqm)));
     EvMakedirs "cached_embeddings/";
     EvSavetxt (cache_filename (chip_id sampler) L)].
Proof.
  intros Hb.
  destruct (embed_load_cases sampler L kwargs w bqm Hb)
    as [(text & t & _ & _ & ->)
       |(_ & [(e' & fs & d & h & rest & -> & Hpre & _)|(t & h & ->)])]; step.
  - split; [by eexists|]. by eexists [_; _; _; _; _].
  - split; [by eexists|done].
  - split; [by eexists|]. by exists [].
Qed.

(** X17: when [os.makedirs] raises, the call raises the same exception.
    On a miss whose lower bound, search and conversion returned, the
    search has been made by then and its table is lost: no directory is
    made, [np.savetxt] is not called, and every file is as it was. *)
Theorem makedirs_failure_propagates sampler L kwargs (w : world)
    bqm lb h1 embs h2 table e :
  build_bqm L = inr bqm →
  cache_unreadable np_parse w (cache_filename (chip_id sampler) L) →
  raster_breadth_subgraph_lower_bound (to_networkx_graph bqm)
    (sampler_to_networkx_graph sampler) (ext w) = (inr lb, h1) →
  raster_embedding_search (to_networkx_graph bqm)
    (sampler_to_networkx_graph sampler) 10 6 h1 = (inr embs, h2) →
  embeddings_to_ndarray embs (sorted (nodes (to_networkx_graph bqm)))
  = inr table →
  makedirs_error (mkWorld (files w) (dirs w) h2) "cached_embeddings/"
  = Some e →
  embed sampler L true kwargs w
  = mkOutcome (inl e) (mkWorld (files w) (dirs w) h2)
      [EvLoadtxt (cache_filename (chip_id sampler) L);
       EvLowerBound (to_networkx_graph bqm)
         (sampler_to_networkx_graph sampler);
       EvSearch (to_networkx_graph bqm)
         (sampler_to_networkx_graph sampler) 10 6;
       EvToNdarray (sorted (nodes (to_networkx_graph bqm)));
       EvMakedirs "cached_embeddings/"].
Proof.
  intros Hb Hmiss Hlb Hsearch Hconv Hmk.
  rewrite (embed_miss _ _ _ _ _ Hb Hmiss). step.
  by rewrite Hlb, Hsearch, Hconv, Hmk.
Qed.

(** X18: when [np.savetxt] raises, the call raises the same exception
    and cleans nothing up: the directory [cached_embeddings/] stays
    made, the cache file is as the broken write left it (untouched when
    it could not be opened), every other file is as it was, and the
    table that was found is lost. *)
Theorem savetxt_failure_propagates sampler L kwargs (w : world)
    bqm lb h1 embs h2 table e written :
  build_bqm L = inr bqm →
  cache_unreadable np_parse w (cache_filename (chip_id sampler) L) →
  raster_breadth_subgraph_lower_bound (to_networkx_graph bqm)
    (sampler_to_networkx_graph sampler) (ext w) = (inr lb, h1) →
  raster_embedding_search (to_networkx_graph bqm)
    (sampler_to_networkx_graph sampler) 10 6 h1 = (inr embs, h2) →
  embeddings_to_ndarray embs (sorted (nodes (to_networkx_graph bqm)))
  = inr table →
  makedirs_error (mkWorld (files w) (dirs w) h2) "cached_embeddings/" = None →
  savetxt_error (mkWorld (files w) ({["cached_embeddings/"]} ∪ dirs w) h2)
    (cache_filename (chip_id sampler) L) (np_format table)
  = Some (e, written) →
  embed sampler L true kwargs w
  = mkOutcome (inl e)
      (mkWorld
         (match written with
          | Some part => <[cache_filename (chip_id sampler) L := part]> (files w)
          | None => files w
          end)
         ({["cached_embeddings/"]} ∪ dirs w) h2)
      [EvLoadtxt (cache_filename (chip_id sampler) L);
       EvLowerBound (to_networkx_graph bqm)
         (sampler_to_networkx_graph sampler);
       EvSearch (to_networkx_graph bqm)
         (sampler_to_networkx_graph sampler) 10 6;
       EvToNdarray (sorted (nodes (to_networkx_graph bqm)));
       EvMakedirs "cached_embeddings/";
       EvSavetxt (cache_filename (chip_id sampler) L)].
Proof.
  intros Hb Hmiss Hlb Hsearch Hconv Hmk Hsave.
  rewrite (embed_miss _ _ _ _ _ Hb Hmiss). step.
  by rewrite Hlb, Hsearch, Hconv, Hmk, Hsave.
Qed.

End Policy.

(** ** The claims on the small instance *)

Lemma round_trip_first_call_persists_nothing_witness :
  res (Demo.embed Demo.sampler 2 false [] Demo.fresh) = inl UnboundLocalError
  ∧ files (final (Demo.embed Demo.sampler 2 false [] Demo.fresh))
    = files Demo.fresh
  ∧ ext (final (Demo.embed Demo.sampler 2 false [] Demo.fresh))
    = ext Demo.fresh
  ∧ ∃ rest,
      trace (Demo.embed Demo.sampler 2 true []
               (final (Demo.embed Demo.sampler 2 false [] Demo.fresh)))
      = EvLoadtxt (cache_filename (chip_id Demo.sampler) 2)
        :: EvLowerBound (to_networkx_graph Demo.bqm)
             (sampler_to_networkx_graph Demo.sampler)
        :: rest.
Proof.
  apply (round_trip_first_call_persists_nothing Demo.np_parse Demo.np_format
           Demo.lower_bound Demo.search Demo.to_ndarray
           Demo.makedirs_error Demo.savetxt_error
           Demo.sampler [] [] Demo.fresh).
  reflexivity.
Defined.

Lemma unreadable_cache_falls_back_witness :
  Demo.embed Demo.sampler 2 true [] Demo.corrupt
  = mkOutcome (inr (Demo.table, Demo.bqm))
      (mkWorld
         (<[cache_filename (chip_id Demo.sampler) 2
            := Demo.np_format Demo.table]> (files Demo.corrupt))
         ({["cached_embeddings/"]} ∪ dirs Demo.corrupt) 1%nat)
      [EvLoadtxt (cache_filename (chip_id Demo.sampler) 2);
       EvLowerBound (to_networkx_graph Demo.bqm)
         (sampler_to_networkx_graph Demo.sampler);
       EvSearch (to_networkx_graph Demo.bqm)
         (sampler_to_networkx_graph Demo.sampler) 10 6;
       EvToNdarray (sorted (nodes (to_networkx_graph Demo.bqm)));
       EvMakedirs "cached_embeddings/";
       EvSavetxt (cache_filename (chip_id Demo.sampler) 2)].
Proof.
  apply (unreadable_cache_falls_back Demo.np_parse Demo.np_format
           Demo.lower_bound Demo.search Demo.to_ndarray
           Demo.makedirs_error Demo.savetxt_error
           Demo.sampler 2 [] Demo.corrupt Demo.bqm 1 0%nat [Demo.emb] 1%nat
           Demo.table).
  - vm_compute. reflexivity.
  - right. exists "seven eight". split; vm_compute; reflexivity.
  - reflexivity.
  - reflexivity.
  - vm_compute. reflexivity.
  - vm_compute. reflexivity.
  - vm_compute. reflexivity.
Defined.

Lemma readable_cache_returns_at_once_witness :
  Demo.embed Demo.sampler 2 true [] Demo.cached
  = mkOutcome (inr (Demo.table, Demo.bqm)) Demo.cached
      [EvLoadtxt (cache_filename (chip_id Demo.sampler) 2)].
Proof.
  apply (readable_cache_returns_at_once Demo.np_parse Demo.np_format
           Demo.lower_bound Demo.search Demo.to_ndarray
           Demo.makedirs_error Demo.savetxt_error
           Demo.sampler 2 [] Demo.cached Demo.bqm "7 8 9 10" Demo.table).
  - vm_compute. reflexivity.
  - vm_compute. reflexivity.
  - vm_compute. reflexivity.
Defined.


Lemma search_failure_propagates_witness :
  Demo.embed_no_embedding Demo.sampler 2 true [] Demo.fresh
  = mkOutcome (inl (OtherError "no embedding found"))
      (mkWorld (files Demo.fresh) (dirs Demo.fresh) 1%nat)
      [EvLoadtxt (cache_filename (chip_id Demo.sampler) 2);
       EvLowerBound (to_networkx_graph Demo.bqm)
         (sampler_to_networkx_graph Demo.sampler);
       EvSearch (to_networkx_graph Demo.bqm)
         (sampler_to_networkx_graph Demo.sampler) 10 6].
Proof.
  apply (search_failure_propagates Demo.np_parse Demo.np_format
           Demo.lower_bound Demo.search_fails Demo.to_ndarray
           Demo.makedirs_error Demo.savetxt_error
           Demo.sampler 2 [] Demo.fresh Demo.bqm 1 0%nat
           (OtherError "no embedding found") 1%nat).
  - vm_compute. reflexivity.
  - left. reflexivity.
  - reflexivity.
  - reflexivity.
Defined.

(** * Further properties of the logical graph *)

(** An interaction found in the model was written by one of the writes,
    with that bias. *)
Lemma foldl_write_op_origin ops q k w :
  foldl write_op q ops !! k = Some w →
  q !! k = Some w ∨ ∃ op, op ∈ ops ∧ edge op.1.1 op.1.2 = k ∧ op.2 = w.
Proof.
  induction ops as [|op ops IH] in q |-*; simpl; [by left|].
  intros [Hq|(op' & Hop' & Hk & Hw)]%IH.
  - unfold write_op in Hq.
    destruct (decide (edge op.1.1 op.1.2 = k)) as [Hk|Hk].
    + rewrite Hk, lookup_insert_eq in Hq. injection Hq as <-.
      right. exists op. split; [apply elem_of_cons; by left|done].
    + rewrite lookup_insert_ne in Hq by done. by left.
  - right. exists op'. split; [apply elem_of_cons; by right|done].
Qed.

(** A write along the cylinder and a write across the rows never meet:
    their end points are 1 or [L - 1] apart, respectively [L] apart. *)
Lemma row_edge_not_cyclic L x y x' y' :
  2 ≤ L → 0 ≤ x < L → 0 ≤ y < L → 0 ≤ x' < L → 0 ≤ y' < L →
  edge (x * L + y) (x * L + ((y + 1) `mod` L))
  ≠ edge (x' * L + y') ((x' + 1) * L + y').
Proof.
  intros HL Hx Hy Hx' Hy' Hedge.
  destruct (succ_mod_cases L y Hy) as [[Hm ?]|[Hm ?]];
    rewrite Hm in Hedge;
    apply edge_eq_inv in Hedge as [[H1 H2]|[H1 H2]]; nia.
Qed.

Lemma row_edge_inj L x y x' y' :
  0 ≤ y < L → 0 ≤ y' < L →
  edge (x * L + y) ((x + 1) * L + y) = edge (x' * L + y') ((x' + 1) * L + y') →
  x = x' ∧ y = y'.
Proof.
  intros Hy Hy' [[H1 _]|[H1 H2]]%edge_eq_inv.
  - by apply (site_label_inj L).
  - nia.
Qed.

Lemma cyclic_edge_inj L x y x' y' :
  3 ≤ L → 0 ≤ y < L → 0 ≤ y' < L →
  edge (x * L + y) (x * L + ((y + 1) `mod` L))
  = edge (x' * L + y') (x' * L + ((y' + 1) `mod` L)) →
  x = x' ∧ y = y'.
Proof.
  intros HL Hy Hy' Hedge.
  destruct (succ_mod_cases L y Hy) as [[Hm ?]|[Hm ?]];
    destruct (succ_mod_cases L y' Hy') as [[Hm' ?]|[Hm' ?]];
    rewrite Hm, Hm' in Hedge;
    apply edge_eq_inv in Hedge as [[H1 H2]|[H1 H2]];
    first [ apply (site_label_inj L) in H1 as [? ?]; [lia|lia..]
          | apply (site_label_inj L) in H2 as [? ?]; [lia|lia..] ].
Qed.

(** A bond between rows is written by its upper site only, with [+1]. *)
Lemma row_coupling L x y :
  2 ≤ L → 0 ≤ x < L - 1 → 0 ≤ y < L →
  foldl write_op ∅ (all_ops L) !! edge (x * L + y) ((x + 1) * L + y) = Some 1.
Proof.
  intros HL Hx Hy. apply foldl_write_op_lookup.
  - intros op (x' & y' & Hx' & Hy' & Hop)%elem_of_all_ops Hedge.
    apply elem_of_site_ops in Hop as [->|[_ ->]]; [|done]. simpl in Hedge.
    destruct (row_edge_not_cyclic L x' y' x y); [lia..|done].
  - right. exists (x * L + y, (x + 1) * L + y, 1). split; [|done].
    apply elem_of_all_ops. exists x, y. split_and!; [lia..|].
    apply elem_of_site_ops. right. split; [lia|done].
Qed.

(** X1: from size 2 on, the interaction between a site and the site
    below it in the next row, [x*L+y] and [(x+1)*L+y] with [x < L-1], has
    bias [+1]. *)
Theorem row_coupling_is_plus_one L bqm x y :
  2 ≤ L → build_bqm L = inr bqm →
  0 ≤ x < L - 1 → 0 ≤ y < L →
  get_quadratic bqm (x * L + y) ((x + 1) * L + y) = Some 1.
Proof.
  intros HL Hb Hx Hy. rewrite build_bqm_spec in Hb by done.
  injection Hb as <-. unfold get_quadratic. simpl.
  by apply row_coupling.
Qed.

Lemma row_coupling_is_plus_one_witness :
  get_quadratic Demo.bqm (0 * 2 + 1) ((0 + 1) * 2 + 1) = Some 1.
Proof.
  apply (row_coupling_is_plus_one 2 Demo.bqm 0 1); [lia| |lia|lia].
  vm_compute. reflexivity.
Defined.

(** What is found in the map of interactions was written by a site. *)
Lemma interaction_origin L k w :
  foldl write_op ∅ (all_ops L) !! k = Some w →
  (w = 1 ∨ w = -1)
  ∧ ∃ x y, 0 ≤ x < L ∧ 0 ≤ y < L ∧
      (k = edge (x * L + y) (x * L + ((y + 1) `mod` L))
       ∨ (x < L - 1 ∧ k = edge (x * L + y) ((x + 1) * L + y))).
Proof.
  intros [Hq|(op & Hop & Hk & Hw)]%foldl_write_op_origin;
    [by rewrite lookup_empty in Hq|].
  apply elem_of_all_ops in Hop as (x & y & Hx & Hy & Hop).
  apply elem_of_site_ops in Hop as [->|[Hlt ->]]; simpl in *.
  - split; [case_bool_decide; lia|]. exists x, y. split_and!; [lia..|by left].
  - split; [lia|]. exists x, y. split_and!; [lia..|by right].
Qed.

(** X2: from size 2 on, every interaction of the model has bias [+1] or
    [-1] and joins a site either to its neighbour around the cylinder or
    to the site below it in the next row; there is no other
    interaction. *)
Theorem interactions_are_lattice_bonds L bqm u v w :
  2 ≤ L → build_bqm L = inr bqm →
  get_quadratic bqm u v = Some w →
  (w = 1 ∨ w = -1)
  ∧ ∃ x y, 0 ≤ x < L ∧ 0 ≤ y < L ∧
      (edge u v = edge (x * L + y) (x * L + ((y + 1) `mod` L))
       ∨ (x < L - 1 ∧ edge u v = edge (x * L + y) ((x + 1) * L + y))).
Proof.
  intros HL Hb Hq. rewrite build_bqm_spec in Hb by done.
  injection Hb as <-. unfold get_quadratic in Hq. simpl in Hq.
  by apply interaction_origin.
Qed.

Lemma interactions_are_lattice_bonds_witness :
  (1 = 1 ∨ 1 = -1)
  ∧ ∃ x y, 0 ≤ x < 2 ∧ 0 ≤ y < 2 ∧
      (edge 1 3 = edge (x * 2 + y) (x * 2 + ((y + 1) `mod` 2))
       ∨ (x < 2 - 1 ∧ edge 1 3 = edge (x * 2 + y) ((x + 1) * 2 + y))).
Proof.
  apply (interactions_are_lattice_bonds 2 Demo.bqm 1 3 1); [lia|..];
    vm_compute; reflexivity.
Defined.

(** X3: the lattice is open along [x]: from size 3 on there is no
    interaction between a site of the last row and the site of the first
    row in the same column. *)
Theorem no_coupling_across_the_open_boundary L bqm y :
  3 ≤ L → build_bqm L = inr bqm → 0 ≤ y < L →
  get_quadratic bqm ((L - 1) * L + y) y = None.
Proof.
  intros HL Hb Hy.
  destruct (get_quadratic bqm ((L - 1) * L + y) y) as [w|] eqn:Hq; [|done].
  exfalso.
  rewrite build_bqm_spec in Hb by lia. injection Hb as <-.
  unfold get_quadratic in Hq. simpl in Hq.
  apply interaction_origin
    in Hq as (_ & x' & y' & Hx' & Hy' & [Hedge|[Hlt Hedge]]).
  - destruct (succ_mod_cases L y' Hy') as [[Hm ?]|[Hm ?]];
      rewrite Hm in Hedge;
      apply edge_eq_inv in Hedge as [[H1 H2]|[H1 H2]]; nia.
  - apply edge_eq_inv in Hedge as [[H1 H2]|[H1 H2]]; nia.
Qed.

Lemma no_coupling_across_the_open_boundary_witness :
  get_quadratic
    (match build_bqm 3 with inr b => b | inl _ => empty end)
    ((3 - 1) * 3 + 1) 1 = None.
Proof.
  apply (no_coupling_across_the_open_boundary 3); [lia| |lia].
  vm_compute. reflexivity.
Defined.

(** X16: from size 3 on, every square of four neighbouring sites is
    frustrated: the product of the four biases around it is [-1] (the
    two bonds along the cylinder have opposite signs, the two bonds
    between the rows are [+1]). *)
Theorem every_plaquette_is_frustrated L bqm x y :
  3 ≤ L → build_bqm L = inr bqm →
  0 ≤ x < L - 1 → 0 ≤ y < L →
  ∃ a b c d,
    get_quadratic bqm (x * L + y) (x * L + ((y + 1) `mod` L)) = Some a
    ∧ get_quadratic bqm ((x + 1) * L + y) ((x + 1) * L + ((y + 1) `mod` L))
      = Some b
    ∧ get_quadratic bqm (x * L + y) ((x + 1) * L + y) = Some c
    ∧ get_quadratic bqm (x * L + ((y + 1) `mod` L))
        ((x + 1) * L + ((y + 1) `mod` L)) = Some d
    ∧ a * b * c * d = -1.
Proof.
  intros HL Hb Hx Hy.
  assert (0 ≤ (y + 1) `mod` L < L) as Hy' by (apply Z.mod_pos_bound; lia).
  exists (if Z.even (x + y) then -1 else 1),
         (if Z.even (x + 1 + y) then -1 else 1), 1, 1.
  split_and!.
  - apply (cyclic_weights_from_three L); [done..|lia|done].
  - apply (cyclic_weights_from_three L); [done..|lia|done].
  - rewrite build_bqm_spec in Hb by lia. injection Hb as <-.
    apply row_coupling; [lia|done..].
  - rewrite build_bqm_spec in Hb by lia. injection Hb as <-.
    apply row_coupling; [lia|done..].
  - replace (x + 1 + y) with (Z.succ (x + y)) by lia.
    rewrite Z.even_succ, <- Z.negb_even. by destruct (Z.even (x + y)).
Qed.

Lemma every_plaquette_is_frustrated_witness :
  ∃ a b c d,
    get_quadratic (match build_bqm 3 with inr b => b | inl _ => empty end)
      (0 * 3 + 2) (0 * 3 + ((2 + 1) `mod` 3)) = Some a
    ∧ get_quadratic (match build_bqm 3 with inr b => b | inl _ => empty end)
        ((0 + 1) * 3 + 2) ((0 + 1) * 3 + ((2 + 1) `mod` 3)) = Some b
    ∧ get_quadratic (match build_bqm 3 with inr b => b | inl _ => empty end)
        (0 * 3 + 2) ((0 + 1) * 3 + 2) = Some c
    ∧ get_quadratic (match build_bqm 3 with inr b => b | inl _ => empty end)
        (0 * 3 + ((2 + 1) `mod` 3)) ((0 + 1) * 3 + ((2 + 1) `mod` 3)) = Some d
    ∧ a * b * c * d = -1.
Proof.
  apply (every_plaquette_is_frustrated 3); [lia| |lia|lia].
  vm_compute. reflexivity.
Defined.

(** ** Counting *)

Lemma length_bind_const {A B} (f : A → list B) (l : list A) (c : nat) :
  (∀ x, x ∈ l → length (f x) = c) → length (l ≫= f) = (length l * c)%nat.
Proof.
  induction l as [|x l IH]; intros Hc; [done|].
  rewrite bind_cons, length_app, IH, Hc; simpl; [lia|by left|].
  intros y Hy. apply Hc. by right.
Qed.

Lemma length_site_ops L x y :
  length (site_ops L x y) = if bool_decide (x < L - 1) then 2%nat else 1%nat.
Proof. unfold site_ops. by destruct (bool_decide (x < L - 1)). Qed.

(** A row that has a row below it makes [2 * L] writes, the last row
    [L]. *)
Lemma length_all_ops L : 1 ≤ L → Z.of_nat (length (all_ops L)) = 2 * L * L - L.
Proof.
  intros HL. unfold all_ops.
  replace L with ((L - 1) + 1) at 1 by lia.
  rewrite seqZ_app, bind_app, length_app by lia.
  assert (seqZ (0 + (L - 1)) 1 = [L - 1]) as ->.
  { rewrite seqZ_cons, seqZ_nil by lia. done. }
  rewrite (length_bind_const _ _ (Z.to_nat L * 2)).
  - rewrite bind_cons. simpl.
    rewrite app_nil_r, (length_bind_const _ _ 1), !length_seqZ.
    + nia.
    + intros y _. rewrite length_site_ops, bool_decide_false; [done|lia].
  - intros x Hx%elem_of_seqZ. rewrite (length_bind_const _ _ 2), length_seqZ.
    + done.
    + intros y _. rewrite length_site_ops, bool_decide_true; [done|lia].
Qed.

Lemma size_foldl_write_op (ops : list (Z * Z * Z)) (q : gmap (Z * Z) Z) :
  NoDup ((λ op : Z * Z * Z, edge op.1.1 op.1.2) <$> ops) →
  (∀ op, op ∈ ops → q !! edge op.1.1 op.1.2 = None) →
  size (foldl write_op q ops) = (size q + length ops)%nat.
Proof.
  induction ops as [|op ops IH] in q |-*; intros Hnd Hfresh; simpl; [lia|].
  rewrite fmap_cons in Hnd. apply NoDup_cons in Hnd as [Hop Hnd].
  rewrite IH; [|done|].
  - unfold write_op. rewrite map_size_insert_None; [lia|].
    apply Hfresh. by left.
  - intros op' Hop'. unfold write_op. rewrite lookup_insert_ne.
    + apply Hfresh. by right.
    + intros Heq. apply Hop. rewrite Heq.
      by apply (list_elem_of_fmap_2 (λ op : Z * Z * Z, edge op.1.1 op.1.2)).
Qed.

(** From size 3 on, no two writes address the same interaction. *)
Lemma all_ops_key_inj L op op' :
  3 ≤ L → op ∈ all_ops L → op' ∈ all_ops L →
  edge op.1.1 op.1.2 = edge op'.1.1 op'.1.2 → op = op'.
Proof.
  intros HL (x & y & Hx & Hy & Hop)%elem_of_all_ops
            (x' & y' & Hx' & Hy' & Hop')%elem_of_all_ops Hedge.
  apply elem_of_site_ops in Hop as [->|[Hlt ->]];
    apply elem_of_site_ops in Hop' as [->|[Hlt' ->]]; simpl in Hedge.
  - by apply cyclic_edge_inj in Hedge as [-> ->].
  - destruct (row_edge_not_cyclic L x y x' y'); [lia..|done].
  - destruct (row_edge_not_cyclic L x' y' x y); [lia..|done].
  - by apply row_edge_inj in Hedge as [-> ->].
Qed.

Lemma NoDup_all_ops L : 2 ≤ L → NoDup (all_ops L).
Proof.
  intros HL.
  assert (∀ x y op, op ∈ site_ops L x y → op.1.1 = x * L + y) as Hsrc.
  { intros x y op [->|[_ ->]]%elem_of_site_ops; done. }
  unfold all_ops. apply NoDup_bind; [| |apply NoDup_seqZ].
  - intros x1 x2 op _ _ (y1 & Hop1 & Hy1%elem_of_seqZ)%list_elem_of_bind
                        (y2 & Hop2 & Hy2%elem_of_seqZ)%list_elem_of_bind.
    apply Hsrc in Hop1, Hop2. rewrite Hop1 in Hop2.
    by apply site_label_inj in Hop2 as [? _]; [|lia..].
  - intros x Hx%elem_of_seqZ. apply NoDup_bind; [| |apply NoDup_seqZ].
    + intros y1 y2 op Hy1%elem_of_seqZ Hy2%elem_of_seqZ Hop1 Hop2.
      apply Hsrc in Hop1, Hop2. rewrite Hop1 in Hop2.
      by apply site_label_inj in Hop2 as [_ ?]; [|lia..].
    + intros y Hy%elem_of_seqZ. unfold site_ops.
      destruct (bool_decide (x < L - 1)); [|apply NoDup_singleton].
      apply NoDup_cons. split; [|apply NoDup_singleton].
      intros [= H1 _]%list_elem_of_singleton.
      destruct (succ_mod_cases L y) as [[Hm ?]|[Hm ?]]; [lia|..];
        rewrite Hm in H1; nia.
Qed.

(** X4: from size 3 on, the model has [L * L] variables and
    [2 * L * L - L] interactions: [L * L] around the cylinder and
    [L * (L - 1)] between rows. *)
Theorem lattice_has_all_its_bonds L bqm :
  3 ≤ L → build_bqm L = inr bqm →
  Z.of_nat (length (variables bqm)) = L * L
  ∧ NoDup (variables bqm)
  ∧ Z.of_nat (size (quadratic bqm)) = 2 * L * L - L.
Proof.
  intros HL Hb. rewrite build_bqm_spec in Hb by lia. injection Hb as <-.
  simpl. split_and!.
  - rewrite length_seqZ. nia.
  - apply NoDup_seqZ.
  - rewrite size_foldl_write_op, map_size_empty.
    + simpl. apply length_all_ops. lia.
    + apply NoDup_fmap_2_strong; [|apply NoDup_all_ops; lia].
      intros op op' Hop Hop'. by apply (all_ops_key_inj L).
    + intros op _. apply lookup_empty.
Qed.

Lemma lattice_has_all_its_bonds_witness :
  Z.of_nat (length (variables
     (match build_bqm 3 with inr b => b | inl _ => empty end))) = 3 * 3
  ∧ NoDup (variables
     (match build_bqm 3 with inr b => b | inl _ => empty end))
  ∧ Z.of_nat (size (quadratic
     (match build_bqm 3 with inr b => b | inl _ => empty end)))
    = 2 * 3 * 3 - 3.
Proof.
  apply (lattice_has_all_its_bonds 3); [lia|]. vm_compute. reflexivity.
Defined.

(** ** Linear biases *)

Lemma linear_foldl_add_variable (k : nat) (v : Z) :
  linear (foldl add_variable empty (seqZ 0 (Z.of_nat k))) !! v
  = if bool_decide (0 ≤ v < Z.of_nat k) then Some 0 else None.
Proof.
  induction k as [|k IH].
  - simpl. rewrite lookup_empty, bool_decide_false; [done|lia].
  - rewrite seqZ_S, foldl_app. cbn [foldl add_variable linear].
    destruct (decide (v = 0 + Z.of_nat k)) as [->|Hne].
    + rewrite lookup_insert_eq, IH, bool_decide_false, bool_decide_true by lia.
      done.
    + rewrite lookup_insert_ne, IH by done.
      repeat case_bool_decide; (done || lia).
Qed.

(** X5: from size 2 on, every variable [0 .. L*L-1] of the model has
    linear bias 0, and no other label has a bias: the model has couplings
    only. *)
Theorem no_linear_bias L bqm v :
  2 ≤ L → build_bqm L = inr bqm →
  linear bqm !! v = if bool_decide (0 ≤ v < L * L) then Some 0 else None.
Proof.
  intros HL Hb. rewrite build_bqm_spec in Hb by done. injection Hb as <-.
  simpl. rewrite add_sites_flat, site_labels by lia.
  pose proof (linear_foldl_add_variable (Z.to_nat (L * L)) v) as H.
  rewrite Z2Nat.id in H by nia. done.
Qed.

Lemma no_linear_bias_witness :
  linear Demo.bqm !! 3 = if bool_decide (0 ≤ 3 < 2 * 2) then Some 0 else None.
Proof.
  apply (no_linear_bias 2 Demo.bqm 3); [lia|]. vm_compute. reflexivity.
Defined.

(** * Calls and the entry point *)

Section EntryFacts.

Context {ndarray hidden : Type}.
Variable np_parse : string → option ndarray.
Variable np_format : ndarray → string.
Variable raster_breadth_subgraph_lower_bound :
  Graph → Graph → hidden → result Z * hidden.
Variable raster_embedding_search :
  Graph → Graph → Z → Z → hidden → result (list (gmap Z Z)) * hidden.
Variable embeddings_to_ndarray : list (gmap Z Z) → list Z → result ndarray.
Variable makedirs_error : @world hidden → string → option exn.
Variable savetxt_error :
  @world hidden → string → string → option (exn * option string).

Abbreviation call :=
  (call_embed_square_lattice np_parse np_format
     raster_breadth_subgraph_lower_bound raster_embedding_search
     embeddings_to_ndarray makedirs_error savetxt_error).

(** X13: a call that gives at most one positional argument and no
    keyword [L] leaves the parameter [L] without a value: it raises
    [TypeError] before the body runs, so nothing is read, searched or
    written. *)
Theorem call_without_L_raises args keywords (w : world) :
  (length args ≤ 1)%nat → lookup_keyword "L" keywords = None →
  call args keywords w = mkOutcome (inl TypeError) w [].
Proof.
  intros Hlen HL. unfold call_embed_square_lattice, bind_arguments.
  rewrite bool_decide_false by lia.
  assert (args !! 1%nat = None) as -> by (apply lookup_ge_None; lia).
  assert (bind_parameter "L" None keywords None = inl TypeError) as ->.
  { unfold bind_parameter. by rewrite HL. }
  destruct (bind_parameter "sampler" _ _ _) as [e|v] eqn:Hs; [|done].
  assert (e = TypeError) as ->; [|done].
  unfold bind_parameter in Hs. by repeat case_match; simplify_eq.
Qed.

(** X14: [main] cannot run: it passes the size 12 in the place of the
    sampler and nothing for [L], so for every state of the cache and
    whatever the search would answer it raises [TypeError] and leaves
    the world untouched. *)
Theorem main_raises_type_error (w : world) :
  main np_parse np_format raster_breadth_subgraph_lower_bound
    raster_embedding_search embeddings_to_ndarray makedirs_error
    savetxt_error w
  = mkOutcome (inl TypeError) w [].
Proof.
  assert (bind_arguments [PyInt 12]
            [("raster_breadth", 5); ("max_num_emb", 1); ("timeout", 100)]
          = inl TypeError) as Hbind by (vm_compute; reflexivity).
  unfold main, bind, call_embed_square_lattice. by rewrite Hbind.
Qed.

(** X15: a call with a sampler, an integer size and keywords that name
    no parameter runs with [try_to_load=True], the default, and the
    keywords change nothing: it is the call with no keyword at all. *)
Theorem call_defaults_to_loading sampler L keywords (w : world) :
  lookup_keyword "sampler" keywords = None →
  lookup_keyword "L" keywords = None →
  lookup_keyword "try_to_load" keywords = None →
  call [PySampler sampler; PyInt L] keywords w
  = embed_square_lattice np_parse np_format
      raster_breadth_subgraph_lower_bound raster_embedding_search
      embeddings_to_ndarray makedirs_error savetxt_error
      sampler L true [] w.
Proof.
  intros Hs HL Ht. unfold call_embed_square_lattice, bind_arguments.
  rewrite bool_decide_false by (simpl; lia).
  unfold bind_parameter. simpl. rewrite Hs, HL, Ht. done.
Qed.

End EntryFacts.

(** ** The further properties on the small instance *)

Lemma nonpositive_size_is_not_rejected_witness :
  (∃ rest,
     trace (Demo.embed Demo.sampler 0 true [] Demo.fresh)
     = EvLoadtxt (cache_filename (chip_id Demo.sampler) 0) :: rest)
  ∧ (∀ table b,
       res (Demo.embed Demo.sampler 0 true [] Demo.fresh) = inr (table, b) →
       b = empty)
  ∧ (∀ order,
       EvToNdarray order ∈ trace (Demo.embed Demo.sampler 0 true [] Demo.fresh) →
       order = []).
Proof.
  apply (nonpositive_size_is_not_rejected Demo.np_parse Demo.np_format
           Demo.lower_bound Demo.search Demo.to_ndarray
           Demo.makedirs_error Demo.savetxt_error
           Demo.sampler 0 [] Demo.fresh).
  lia.
Defined.

Lemma returned_table_is_cached_witness :
  ∃ text,
    files (final (Demo.embed Demo.sampler 2 true [] Demo.corrupt))
      !! cache_filename (chip_id Demo.sampler) 2 = Some text
    ∧ (Demo.np_parse text = Some Demo.table
       ∨ text = Demo.np_format Demo.table).
Proof.
  apply (returned_table_is_cached Demo.np_parse Demo.np_format
           Demo.lower_bound Demo.search Demo.to_ndarray
           Demo.makedirs_error Demo.savetxt_error
           Demo.sampler 2 true [] Demo.corrupt Demo.table Demo.bqm).
  vm_compute. reflexivity.
Defined.

Lemma next_call_reads_what_was_returned_witness :
  Demo.embed Demo.sampler 2 true [("timeout", 100)]
    (final (Demo.embed Demo.sampler 2 true [] Demo.fresh))
  = mkOutcome (inr (Demo.table, Demo.bqm))
      (final (Demo.embed Demo.sampler 2 true [] Demo.fresh))
      [EvLoadtxt (cache_filename (chip_id Demo.sampler) 2)].
Proof.
  apply (next_call_reads_what_was_returned Demo.np_parse Demo.np_format
           Demo.lower_bound Demo.search Demo.to_ndarray
           Demo.makedirs_error Demo.savetxt_error
           Demo.sampler Demo.sampler 2 true [] [("timeout", 100)]
           Demo.fresh Demo.table Demo.bqm).
  - reflexivity.
  - vm_compute. reflexivity.
  - vm_compute. reflexivity.
Defined.

Lemma cache_written_only_with_fresh_table_witness :
  true = true
  ∧ Demo.path = cache_filename (chip_id Demo.sampler) 2
  ∧ cache_unreadable Demo.np_parse Demo.fresh Demo.path
  ∧ "cached_embeddings/"
    ∈ dirs (final (Demo.embed Demo.sampler 2 true [] Demo.fresh))
  ∧ ∃ bqm lb h1 embs h2 table,
      build_bqm 2 = inr bqm
      ∧ Demo.lower_bound (to_networkx_graph bqm)
          (sampler_to_networkx_graph Demo.sampler) (ext Demo.fresh)
        = (inr lb, h1)
      ∧ Demo.search (to_networkx_graph bqm)
          (sampler_to_networkx_graph Demo.sampler) 10 6 h1 = (inr embs, h2)
      ∧ Demo.to_ndarray embs (sorted (nodes (to_networkx_graph bqm)))
        = inr table
      ∧ (∀ r, res (Demo.embed Demo.sampler 2 true [] Demo.fresh) = inr r →
              r = (table, bqm)
              ∧ files (final (Demo.embed Demo.sampler 2 true [] Demo.fresh))
                  !! Demo.path
                = Some (Demo.np_format table)).
Proof.
  apply (cache_written_only_with_fresh_table Demo.np_parse Demo.np_format
           Demo.lower_bound Demo.search Demo.to_ndarray
           Demo.makedirs_error Demo.savetxt_error
           Demo.sampler 2 true [] Demo.fresh Demo.path).
  vm_compute. do 5 right. left.
Defined.

Lemma disk_untouched_before_makedirs_witness :
  files (final (Demo.embed_no_embedding Demo.sampler 2 true [] Demo.corrupt))
  = files Demo.corrupt
  ∧ dirs (final (Demo.embed_no_embedding Demo.sampler 2 true [] Demo.corrupt))
    = dirs Demo.corrupt.
Proof.
  apply (disk_untouched_before_makedirs Demo.np_parse Demo.np_format
           Demo.lower_bound Demo.search_fails Demo.to_ndarray
           Demo.makedirs_error Demo.savetxt_error
           Demo.sampler 2 true [] Demo.corrupt).
  intros Hin. vm_compute in Hin.
  repeat (inversion Hin as [|? ? ? Hin']; clear Hin; rename Hin' into Hin).
Defined.

Lemma makedirs_failure_propagates_witness :
  Demo.embed Demo.sampler 2 true [] Demo.blocked
  = mkOutcome (inl FileExistsError)
      (mkWorld (files Demo.blocked) (dirs Demo.blocked) 1%nat)
      [EvLoadtxt (cache_filename (chip_id Demo.sampler) 2);
       EvLowerBound (to_networkx_graph Demo.bqm)
         (sampler_to_networkx_graph Demo.sampler);
       EvSearch (to_networkx_graph Demo.bqm)
         (sampler_to_networkx_graph Demo.sampler) 10 6;
       EvToNdarray (sorted (nodes (to_networkx_graph Demo.bqm)));
       EvMakedirs "cached_embeddings/"].
Proof.
  apply (makedirs_failure_propagates Demo.np_parse Demo.np_format
           Demo.lower_bound Demo.search Demo.to_ndarray
           Demo.makedirs_error Demo.savetxt_error
           Demo.sampler 2 [] Demo.blocked Demo.bqm 1 0%nat [Demo.emb]
           1%nat Demo.table FileExistsError).
  - vm_compute. reflexivity.
  - left. vm_compute. reflexivity.
  - reflexivity.
  - reflexivity.
  - vm_compute. reflexivity.
  - vm_compute. reflexivity.
Defined.

Lemma savetxt_failure_propagates_witness :
  Demo.embed Demo.nested_sampler 2 true [] Demo.fresh
  = mkOutcome (inl FileNotFoundError)
      (mkWorld (files Demo.fresh)
         ({["cached_embeddings/"]} ∪ dirs Demo.fresh) 1%nat)
      [EvLoadtxt (cache_filename (chip_id Demo.nested_sampler) 2);
       EvLowerBound (to_networkx_graph Demo.bqm)
         (sampler_to_networkx_graph Demo.nested_sampler);
       EvSearch (to_networkx_graph Demo.bqm)
         (sampler_to_networkx_graph Demo.nested_sampler) 10 6;
       EvToNdarray (sorted (nodes (to_networkx_graph Demo.bqm)));
       EvMakedirs "cached_embeddings/";
       EvSavetxt (cache_filename (chip_id Demo.nested_sampler) 2)].
Proof.
  apply (savetxt_failure_propagates Demo.np_parse Demo.np_format
           Demo.lower_bound Demo.search Demo.to_ndarray
           Demo.makedirs_error Demo.savetxt_error
           Demo.nested_sampler 2 [] Demo.fresh Demo.bqm 1 0%nat [Demo.emb]
           1%nat Demo.table FileNotFoundError None).
  - vm_compute. reflexivity.
  - left. reflexivity.
  - reflexivity.
  - reflexivity.
  - vm_compute. reflexivity.
  - vm_compute. reflexivity.
  - vm_compute. reflexivity.
Defined.

Lemma events_follow_program_order_witness :
  (∃ rest,
     trace (Demo.embed Demo.sampler 2 true [] Demo.fresh)
     = EvLoadtxt (cache_filename (chip_id Demo.sampler) 2) :: rest)
  ∧ trace (Demo.embed Demo.sampler 2 true [] Demo.fresh)
    `prefix_of`
    [EvLoadtxt (cache_filename (chip_id Demo.sampler) 2);
     EvLowerBound (to_networkx_graph Demo.bqm)
       (sampler_to_networkx_graph Demo.sampler);
     EvSearch (to_networkx_graph Demo.bqm)
       (sampler_to_networkx_graph Demo.sampler) 10 6;
     EvToNdarray (sorted (nodes (to_networkx_graph Demo.bqm)));
     EvMakedirs "cached_embeddings/";
     EvSavetxt (cache_filename (chip_id Demo.sampler) 2)].
Proof.
  apply (events_follow_program_order Demo.np_parse Demo.np_format
           Demo.lower_bound Demo.search Demo.to_ndarray
           Demo.makedirs_error Demo.savetxt_error
           Demo.sampler 2 [] Demo.fresh Demo.bqm).
  vm_compute. reflexivity.
Defined.

Lemma call_without_L_raises_witness :
  call_embed_square_lattice Demo.np_parse Demo.np_format
    Demo.lower_bound Demo.search Demo.to_ndarray
    Demo.makedirs_error Demo.savetxt_error
    [PyInt 12] [("raster_breadth", 5); ("max_num_emb", 1); ("timeout", 100)]
    Demo.fresh
  = mkOutcome (inl TypeError) Demo.fresh [].
Proof.
  apply (call_without_L_raises Demo.np_parse Demo.np_format
           Demo.lower_bound Demo.search Demo.to_ndarray
           Demo.makedirs_error Demo.savetxt_error).
  - simpl. lia.
  - vm_compute. reflexivity.
Defined.

Lemma call_defaults_to_loading_witness :
  call_embed_square_lattice Demo.np_parse Demo.np_format
    Demo.lower_bound Demo.search Demo.to_ndarray
    Demo.makedirs_error Demo.savetxt_error
    [PySampler Demo.sampler; PyInt 2] [("timeout", 100)] Demo.cached
  = Demo.embed Demo.sampler 2 true [] Demo.cached.
Proof.
  apply (call_defaults_to_loading Demo.np_parse Demo.np_format
           Demo.lower_bound Demo.search Demo.to_ndarray
           Demo.makedirs_error Demo.savetxt_error
           Demo.sampler 2 [("timeout", 100)] Demo.cached);
    vm_compute; reflexivity.
Defined.
